(** * hatch_jupyter_builder.utils: staleness detection and the npm build hook

    A shallow embedding of [src/hatch_jupyter_builder/utils.py].  Modification
    times are Python floats that the code only copies and compares, never
    computes with; they are modelled as rationals ([Q]), which contain every
    finite double and order them the same way.  The file system is a tree of
    regular files and directories. *)

From Stdlib Require Import QArith Lqa Ascii.
From stdpp Require Import base list strings gmap.

Local Open Scope string_scope.
Local Open Scope list_scope.

(** ** The file system *)

Local Unset Elimination Schemes.

Inductive node : Type :=
| File (st_mtime : Q)
| Dir (entries : list (string * node)).

Local Set Elimination Schemes.

(** A location is the sequence of entry names that leads from the root of the
    file system to a node: what the operating system makes of a path string. *)
Definition location : Type := list string.

Fixpoint assoc (name : string) (es : list (string * node)) : option node :=
  match es with
  | [] => None
  | (k, n) :: es' => if String.eqb k name then Some n else assoc name es'
  end.

Fixpoint lookup_node (n : node) (p : location) : option node :=
  match p with
  | [] => Some n
  | c :: p' =>
      match n with
      | File _ => None
      | Dir es =>
          match assoc c es with
          | Some child => lookup_node child p'
          | None => None
          end
      end
  end.

(** [Path(p).exists()] and [Path(p).is_file()] *)
Definition path_exists (root : node) (p : location) : bool :=
  match lookup_node root p with Some _ => true | None => false end.

Definition path_is_file (root : node) (p : location) : bool :=
  match lookup_node root p with Some (File _) => true | _ => false end.

(** [mtime(path)]: [Path(path).stat().st_mtime].  The callers below only stat
    paths that [is_file] accepted; the files that [os.walk] lists carry their
    mtime in [filenames]. *)
Definition mtime (root : node) (p : location) : Q :=
  match lookup_node root p with Some (File mt) => mt | _ => 0%Q end.

(** The [filenames] of one directory as [os.walk] reports them: the entries
    that are not directories, in listing order; here, their mtimes. *)
Fixpoint filenames (es : list (string * node)) : list Q :=
  match es with
  | [] => []
  | (_, File mt) :: es' => mt :: filenames es'
  | (_, Dir _) :: es' => filenames es'
  end.

(** [for dirname, _, filenames in os.walk(str(path), topdown=False):
       for filename in filenames: mt = mtime(Path(dirname) / filename)]
    The sequence of values [mt] takes.  With [topdown=False] each
    subdirectory is walked before the directory that holds it; walking
    something that is not a directory yields nothing. *)
Fixpoint walk_mtimes (n : node) : list Q :=
  match n with
  | File _ => []
  | Dir es =>
      (fix subdirs (l : list (string * node)) : list Q :=
         match l with
         | [] => []
         | (_, child) :: l' => walk_mtimes child ++ subdirs l'
         end) es ++ filenames es
  end.

Definition os_walk_mtimes (root : node) (p : location) : list Q :=
  match lookup_node root p with
  | Some n => walk_mtimes n
  | None => []
  end.

(** ** Python truthiness and comparisons on floats *)

Definition truthy (x : Q) : bool := negb (Qeq_bool x 0).

(** [x or y] *)
Definition py_or (x y : Q) : Q := if truthy x then x else y.

Definition Qgt_bool (x y : Q) : bool := negb (Qle_bool x y).
Definition Qlt_bool (x y : Q) : bool := negb (Qle_bool y x).
Definition Qge_bool (x y : Q) : bool := Qle_bool y x.

(** ** [compare_recursive_mtime] *)

Definition exceeds (newest : bool) (cutoff mt : Q) : bool :=
  if newest then Qgt_bool mt cutoff else Qlt_bool mt cutoff.

(** The double loop, which returns [True] at the first hit. *)
Fixpoint compare_loop (newest : bool) (cutoff : Q) (mts : list Q) : bool :=
  match mts with
  | [] => false
  | mt :: mts' =>
      if exceeds newest cutoff mt then true
      else compare_loop newest cutoff mts'
  end.

Definition compare_recursive_mtime
    (root : node) (path : location) (cutoff : Q) (newest : bool) : bool :=
  if path_is_file root path && exceeds newest cutoff (mtime root path)
  then true
  else compare_loop newest cutoff (os_walk_mtimes root path).

(** ** [recursive_mtime] *)

Definition extreme_step (newest : bool) (current_extreme mt : Q) : Q :=
  if newest then
    if Qge_bool mt (py_or current_extreme mt) then mt else current_extreme
  else
    if Qle_bool mt (py_or current_extreme mt) then mt else current_extreme.

Definition recursive_mtime
    (root : node) (path : location) (newest : bool) : Q :=
  if path_is_file root path
  then mtime root path
  else fold_left (extreme_step newest) (os_walk_mtimes root path) (-1)%Q.

(** ** [is_stale] *)

Definition is_stale (root : node) (target source : location) : bool :=
  if negb (path_exists root source) then false
  else if negb (path_exists root target) then true
  else
    let target_mtime := py_or (recursive_mtime root target true) 0 in
    compare_recursive_mtime root source target_mtime true.

(** ** Files under a node *)

(** [file_under n mt]: some file at or below [n] has modification time [mt]. *)
Inductive file_under : node -> Q -> Prop :=
| under_self (mt : Q) : file_under (File mt) mt
| under_entry (es : list (string * node)) (name : string) (child : node)
    (mt : Q) :
    In (name, child) es -> file_under child mt -> file_under (Dir es) mt.

(** [newest_under n m]: [m] is the newest modification time among the files
    at or below [n]. *)
Definition newest_under (n : node) (m : Q) : Prop :=
  file_under n m /\ forall mt, file_under n mt -> (mt <= m)%Q.

Section node_induction.
Variable P : node -> Prop.
Hypothesis HFile : forall mt, P (File mt).
Hypothesis HDir :
  forall es, Forall (fun e : string * node => P (snd e)) es -> P (Dir es).

Fixpoint node_ind (n : node) : P n :=
  match n with
  | File mt => HFile mt
  | Dir es =>
      HDir es
        ((fix entries_ok (l : list (string * node)) :
            Forall (fun e : string * node => P (snd e)) l :=
            match l with
            | [] => List.Forall_nil _
            | e :: l' =>
                List.Forall_cons _ e l' (node_ind (snd e)) (entries_ok l')
            end) es)
  end.
End node_induction.

Definition walk_subdirs (es : list (string * node)) : list Q :=
  flat_map (fun e : string * node => walk_mtimes (snd e)) es.

(** What the accumulator of [recursive_mtime] holds after the files [seen]:
    the initial [-1.0], or the newest of them. *)
Definition newest_so_far (seen : list Q) (cur : Q) : Prop :=
  (cur = (-1)%Q /\ seen = []) \/
  (In cur seen /\ forall x, In x seen -> (x <= cur)%Q).

(** ** The host

    What the interpreter, the standard library and the operating system do for
    this module: [pathlib], [shlex], [shutil.which], [pipes.quote] and
    [subprocess].  None of it is code of this repository, so it is a
    parameter of the embedding. *)

Record Host : Type := {
  (** [os.name] *)
  os_name : string;
  (** [Path(s).resolve()]: the location a path string denotes *)
  locate : string -> location;
  (** [Path(s).is_absolute()] *)
  is_absolute : string -> bool;
  (** [shlex.split(s, posix=b)]; [inl msg] is its [ValueError] *)
  shlex_split : bool -> string -> string + list string;
  (** [list2cmdline] *)
  list2cmdline : list string -> string;
  (** [shutil.which(name)], a search of the file system as it is *)
  which : node -> string -> option string;
  (** the child process of [subprocess.check_call(cmd, cwd=, shell=)]:
      its return code and the file system it leaves behind *)
  child_process : list string -> location -> bool -> node -> Z * node
}.

(** ** Exceptions, events and the state of the process *)

Inductive exn : Type :=
| ValueError (msg : string)
| IndexError
| CalledProcessError (returncode : Z) (cmd : list string).

Inductive level : Type := INFO | WARNING.

Inductive event : Type :=
| Log (lvl : level) (msg : string)
| Subprocess (cmd : list string) (cwd : location) (shell : bool).

Record World : Type := {
  root : node;
  environ : gmap string string;
  argv : list string;
  trace : list event
}.

Inductive result (A : Type) : Type :=
| Ok (a : A)
| Raise (e : exn).

Arguments Ok {A} a.
Arguments Raise {A} e.

(** A computation that reads and writes the world and may raise. *)
Definition M (A : Type) : Type := World -> result A * World.

Definition ret {A : Type} (a : A) : M A := fun w => (Ok a, w).

Definition raise {A : Type} (e : exn) : M A := fun w => (Raise e, w).

Definition bind {A B : Type} (c : M A) (k : A -> M B) : M B :=
  fun w =>
    match c w with
    | (Ok a, w') => k a w'
    | (Raise e, w') => (Raise e, w')
    end.

Notation "'let*' x ':=' c1 'in' c2" := (bind c1 (fun x => c2))
  (at level 10, x name, c1 at level 100, c2 at level 200).

Definition gets {A : Type} (f : World -> A) : M A := fun w => (Ok (f w), w).

Definition emit (e : event) : M unit :=
  fun w =>
    (Ok tt,
     {| root := root w; environ := environ w; argv := argv w;
        trace := trace w ++ [e] |}).

Definition set_argv (l : list string) : M unit :=
  fun w =>
    (Ok tt,
     {| root := root w; environ := environ w; argv := l; trace := trace w |}).

Definition set_root (n : node) : M unit :=
  fun w =>
    (Ok tt,
     {| root := n; environ := environ w; argv := argv w; trace := trace w |}).

(** [log.info(msg)] and [log.warning(msg)] *)
Definition log_info (msg : string) : M unit := emit (Log INFO msg).
Definition log_warning (msg : string) : M unit := emit (Log WARNING msg).

(** ** Python values *)

(** Truthiness of an [Optional[str]]: [None] and the empty string are false. *)
Definition str_truthy (o : option string) : bool :=
  match o with
  | Some s => negb (String.eqb s EmptyString)
  | None => false
  end.

(** [a or b] on [Optional[str]] *)
Definition str_or (a b : option string) : option string :=
  if str_truthy a then a else b.

(** [x in l] on a list of strings *)
Definition py_in (x : string) (l : list string) : bool :=
  existsb (String.eqb x) l.

(** [l.remove(x)]: drops the first item equal to [x]; [None] stands for the
    [ValueError] of a list without it. *)
Fixpoint list_remove (x : string) (l : list string) : option (list string) :=
  match l with
  | [] => None
  | y :: l' =>
      if String.eqb y x then Some l'
      else option_map (cons y) (list_remove x l')
  end.

(** A command: [Union[str, list]] *)
Inductive command : Type :=
| CmdStr (s : string)
| CmdList (l : list string).

Definition dquote : string := String "034"%char EmptyString.

(** ** [normalize_cmd] *)

Definition not_found_message (cmd0 : string) : string :=
  "Aborting. Could not find cmd (" +:+ cmd0 +:+ ") in path. "
  +:+ "If command is not expected to be in user's path, "
  +:+ "use an absolute path.".

(** Lines 185 and 186: a command that is not a list is split. *)
Definition split_cmd (h : Host) (cmd : command) : string + list string :=
  match cmd with
  | CmdList l => inr l
  | CmdStr s => shlex_split h (negb (String.eqb (os_name h) "nt")) s
  end.

Definition normalize_cmd (h : Host) (cmd : command) : M (list string) :=
  let* cmd :=
    match split_cmd h cmd with
    | inr l => ret l
    | inl msg => raise (ValueError msg)
    end in
  match cmd with
  | [] => raise IndexError
  | cmd0 :: args =>
      if negb (is_absolute h cmd0) then
        let* cmd_path := gets (fun w => which h (root w) cmd0) in
        if negb (str_truthy cmd_path) then
          raise (ValueError (not_found_message cmd0))
        else ret (default EmptyString cmd_path :: args)
      else ret cmd
  end.

(** ** [run] *)

(** [subprocess.check_call(cmd, cwd=cwd, shell=shell)] *)
Definition check_call (h : Host) (cmd : list string) (cwd : location)
    (shell : bool) : M Z :=
  let* _ := emit (Subprocess cmd cwd shell) in
  let* outcome := gets (fun w => child_process h cmd cwd shell (root w)) in
  let* _ := set_root (snd outcome) in
  if Z.eqb (fst outcome) 0 then ret 0%Z
  else raise (CalledProcessError (fst outcome) cmd).

(** [run(cmd, cwd=cwd)], the one way this module calls it *)
Definition run (h : Host) (cmd : command) (cwd : location) : M Z :=
  let shell := String.eqb (os_name h) "nt" in
  let* cmd := normalize_cmd h cmd in
  let* _ := log_info ("> " +:+ list2cmdline h cmd) in
  check_call h cmd cwd shell.

(** ** [ensure_targets] *)

Definition missing_target_message (target : string) : string :=
  "Ensured target " +:+ dquote +:+ target +:+ dquote +:+ " does not exist".

Fixpoint ensure_targets (h : Host) (ensured_targets : list string) : M unit :=
  match ensured_targets with
  | [] => ret tt
  | target :: rest =>
      let* present := gets (fun w => path_exists (root w) (locate h target)) in
      if negb present then raise (ValueError (missing_target_message target))
      else ensure_targets h rest
  end.

(** ** [npm_builder] *)

Record Args : Type := {
  target_name : string;
  version : string;
  path : string;
  build_dir : option string;
  source_dir : option string;
  build_cmd : option string;
  force : bool;
  npm : option command;
  editable_build_cmd : option string
}.

Definition skip_flag : string := "--skip-npm".
Definition skip_env : string := "HATCH_JUPYTER_BUILDER_SKIP_NPM".

(** Lines 62 to 68: the value of [skip_npm] after the first conditional. *)
Definition skip_requested : M bool :=
  let* flagged := gets (fun w => py_in skip_flag (argv w)) in
  let* env := gets (fun w => environ w !! skip_env) in
  if flagged || bool_decide (env = Some "1") then
    let* _ := log_info "Skipping npm install as requested." in
    let* flagged := gets (fun w => py_in skip_flag (argv w)) in
    let* _ :=
      if flagged then
        let* args := gets argv in
        match list_remove skip_flag args with
        | Some args' => set_argv args'
        | None => raise (ValueError "list.remove(x): x not in list")
        end
      else ret tt in
    ret true
  else ret false.

(** Lines 85 to 94: the default for the npm command. *)
Definition default_npm (h : Host) (abs_path : location) : M (list string) :=
  let* is_yarn :=
    gets (fun w => path_exists (root w) (abs_path ++ ["yarn.lock"])) in
  let* is_yarn :=
    if is_yarn then
      let* found := gets (fun w => which h (root w) "yarn") in
      if negb (str_truthy found) then
        let* _ := log_warning "yarn not found, ignoring yarn.lock file" in
        ret false
      else ret is_yarn
    else ret is_yarn in
  if is_yarn then ret ["yarn"] else ret ["npm"].

(** Lines 98 to 101 *)
Definition should_build (h : Host) (a : Args) : M bool :=
  if str_truthy (build_dir a) && str_truthy (source_dir a) && negb (force a)
  then
    gets (fun w =>
            is_stale (root w)
              (locate h (default EmptyString (build_dir a)))
              (locate h (default EmptyString (source_dir a))))
  else ret true.

(** Lines 81 to 96: the npm command, resolved. *)
Definition tool_command (h : Host) (a : Args) (abs_path : location) :
    M (list string) :=
  let npm :=
    match npm a with
    | Some (CmdStr s) => Some (CmdList [s])
    | other => other
    end in
  let* npm :=
    match npm with
    | None =>
        let* l := default_npm h abs_path in
        ret (CmdList l)
    | Some c => ret c
    end in
  normalize_cmd h npm.

(** Lines 98 to 107: the build decision and the two runs. *)
Definition build (h : Host) (a : Args) (abs_path : location)
    (build_cmd : option string) (npm_cmd : list string) : M unit :=
  let* stale := should_build h a in
  if stale then
    let* _ :=
      log_info
        "Installing build dependencies with npm.  This may take a while..." in
    let* _ := run h (CmdList (npm_cmd ++ ["install"])) abs_path in
    if str_truthy build_cmd then
      let* _ :=
        run h (CmdList (npm_cmd ++ ["run"; default EmptyString build_cmd]))
          abs_path in
      ret tt
    else ret tt
  else ret tt.

Definition npm_builder (h : Host) (a : Args) : M unit :=
  let abs_path := locate h (path a) in
  let* skip_npm := skip_requested in
  let* is_git_checkout :=
    gets (fun w => path_exists (root w) (abs_path ++ [".git"])) in
  let skip_npm :=
    if String.eqb (target_name a) "wheel" && negb is_git_checkout
       && negb (force a)
    then true else skip_npm in
  if skip_npm then log_info "Skipping npm-installation"
  else
    let build_cmd :=
      if String.eqb (version a) "editable"
      then str_or (editable_build_cmd a) (build_cmd a)
      else build_cmd a in
    let* npm_cmd := tool_command h a abs_path in
    build h a abs_path build_cmd npm_cmd.

(** ** Vocabulary of the properties *)

(** The skip signal: the flag in [sys.argv] or the environment variable at
    ["1"]. *)
Definition skip_signal (w : World) : bool :=
  py_in skip_flag (argv w) || bool_decide (environ w !! skip_env = Some "1").

(** The implicit skip: a wheel, built outside a git checkout, not forced. *)
Definition implicit_skip (h : Host) (a : Args) (w : World) : bool :=
  String.eqb (target_name a) "wheel"
  && negb (path_exists (root w) (locate h (path a) ++ [".git"]))
  && negb (force a).

(** The child processes that a trace records, oldest first. *)
Fixpoint spawned (t : list event) : list (list string * location) :=
  match t with
  | [] => []
  | Log _ _ :: t' => spawned t'
  | Subprocess cmd cwd _ :: t' => (cmd, cwd) :: spawned t'
  end.

(** [w'] records child processes that [w] does not. *)
Definition invoked (w w' : World) : Prop :=
  exists more, more <> [] /\ spawned (trace w') = spawned (trace w) ++ more.

(** The first token of a command passes [normalize_cmd]: it is an absolute
    path or [which] finds it. *)
Definition resolvable (h : Host) (fs : node) (cmd : list string) : bool :=
  match cmd with
  | [] => false
  | cmd0 :: _ => is_absolute h cmd0 || str_truthy (which h fs cmd0)
  end.

(** What [normalize_cmd] makes of a resolvable list. *)
Definition normalized (h : Host) (fs : node) (cmd : list string) : list string :=
  match cmd with
  | [] => []
  | cmd0 :: args =>
      if is_absolute h cmd0 then cmd
      else default EmptyString (which h fs cmd0) :: args
  end.

(** [s] occurs in [msg]. *)
Definition names (msg s : string) : Prop :=
  exists before after, msg = before +:+ s +:+ after.

Definition with_trace (w : World) (t : list event) : World :=
  {| root := root w; environ := environ w; argv := argv w; trace := t |}.

(** The records of the log. *)
Definition skip_log : event := Log INFO "Skipping npm install as requested.".
Definition skipped_log : event := Log INFO "Skipping npm-installation".
Definition yarn_warning : event :=
  Log WARNING "yarn not found, ignoring yarn.lock file".
Definition install_log : event :=
  Log INFO "Installing build dependencies with npm.  This may take a while...".

(** The return code of the child process that [run] starts for [cmd]. *)
Definition exit_code (h : Host) (cmd : list string) (cwd : location)
    (fs : node) : Z :=
  fst (child_process h cmd cwd (String.eqb (os_name h) "nt") fs).

(** The file system that this child process leaves behind. *)
Definition files_after (h : Host) (cmd : list string) (cwd : location)
    (fs : node) : node :=
  snd (child_process h cmd cwd (String.eqb (os_name h) "nt") fs).

(** The world once [run] has logged [cmd] and its child process is over. *)
Definition after_call (h : Host) (cmd : list string) (cwd : location)
    (w : World) : World :=
  {| root := snd (child_process h cmd cwd (String.eqb (os_name h) "nt")
                    (root w));
     environ := environ w;
     argv := argv w;
     trace := (trace w ++ [Log INFO ("> " +:+ list2cmdline h cmd)])
              ++ [Subprocess cmd cwd (String.eqb (os_name h) "nt")] |}.

(** The build command in effect: line 79. *)
Definition effective_build_cmd (a : Args) : option string :=
  if String.eqb (version a) "editable"
  then str_or (editable_build_cmd a) (build_cmd a)
  else build_cmd a.

(** [is_stale(build_dir, source_dir)] on the file system [fs] *)
Definition stale_dirs (h : Host) (a : Args) (fs : node) : bool :=
  is_stale fs
    (locate h (default EmptyString (build_dir a)))
    (locate h (default EmptyString (source_dir a))).

(** The two commands that [build] hands to [run]. *)
Definition install_cmd (npm_cmd : list string) : list string :=
  npm_cmd ++ ["install"].

Definition run_cmd (npm_cmd : list string) (build_cmd : option string) :
    list string :=
  npm_cmd ++ ["run"; default EmptyString build_cmd].

(** ** A POSIX host for the examples *)

Fixpoint split_on (sep : ascii) (s : string) : list string :=
  match s with
  | EmptyString => [EmptyString]
  | String c s' =>
      if Ascii.eqb c sep then EmptyString :: split_on sep s'
      else
        match split_on sep s' with
        | [] => [String c EmptyString]
        | t :: ts => String c t :: ts
        end
  end.

Definition nonempty (s : string) : bool := negb (String.eqb s EmptyString).

(** Paths are relative to [/], which is also the working directory. *)
Definition posix_locate (s : string) : location :=
  filter (fun c => nonempty c && negb (String.eqb c ".")) (split_on "/" s).

Definition posix_is_absolute (s : string) : bool :=
  match s with
  | String "/" _ => true
  | _ => false
  end.

(** [PATH=/usr/bin] *)
Definition posix_which (fs : node) (name : string) : option string :=
  if path_is_file fs ["usr"; "bin"; name] then Some ("/usr/bin/" +:+ name)
  else None.

(** A host whose child processes exit with [code] and touch nothing; its
    [shlex.split] handles commands without quotes. *)
Definition posix_host (code : Z) : Host :=
  {| os_name := "posix";
     locate := posix_locate;
     is_absolute := posix_is_absolute;
     shlex_split := fun _ s => inr (filter nonempty (split_on " " s));
     list2cmdline := String.concat " ";
     which := posix_which;
     child_process := fun _ _ _ fs => (code, fs) |}.

Definition usr_bin (tools : list string) : string * node :=
  ("usr", Dir [("bin", Dir (map (fun t => (t, File 1)) tools))]).

(** A checkout whose build output is newer than its sources. *)
Definition built_checkout : node :=
  Dir [ (".git", Dir []);
        ("lib", Dir [("index.js", File 20)]);
        ("src", Dir [("index.ts", File 10); ("widgets", Dir [("w.ts", File 12)])]);
        usr_bin ["npm"] ].

(** The same checkout after an edit of a source file. *)
Definition edited_checkout : node :=
  Dir [ (".git", Dir []);
        ("lib", Dir [("index.js", File 20)]);
        ("src", Dir [("index.ts", File 10); ("widgets", Dir [("w.ts", File 25)])]);
        usr_bin ["npm"] ].

(** An unpacked sdist: no [.git]. *)
Definition unpacked_sdist : node :=
  Dir [ ("lib", Dir [("index.js", File 20)]);
        ("src", Dir [("index.ts", File 10)]);
        ("yarn.lock", File 3);
        usr_bin ["npm"] ].


(** A target with a file at the epoch, listed before one that predates it. *)
Definition epoch_tree : node :=
  Dir [ ("lib", Dir [("index.js", File 0); ("index.js.map", File (-5))]);
        ("src", Dir [("index.ts", File (-3))]) ].

(** A checkout on a machine without [npm]. *)
Definition checkout_without_npm : node :=
  Dir [ (".git", Dir []); ("package.json", File 10); usr_bin [] ].

Definition no_env : gmap string string := ∅.

Definition world_of (fs : node) (args : list string)
    (env : gmap string string) : World :=
  {| root := fs; environ := env; argv := args; trace := [] |}.

Definition wheel_args (build source : option string) (forced : bool) : Args :=
  {| target_name := "wheel"; version := "standard"; path := ".";
     build_dir := build; source_dir := source; build_cmd := Some "build";
     force := forced; npm := None; editable_build_cmd := None |}.

(** ** Vocabulary of the further properties *)

(** From [w] to [w'] the environment and the argument list are the same, the
    child processes [more] were started, and without any of them the file
    system is the same. *)
Definition extends_by (w w' : World) (more : list (list string * location)) :
    Prop :=
  environ w' = environ w /\
  argv w' = argv w /\
  spawned (trace w') = spawned (trace w) ++ more /\
  (more = [] -> root w' = root w).

(** An argument that is not the skip flag. *)
Definition other_arg (x : string) : bool := negb (String.eqb x skip_flag).

Definition sdist_args (ver : string) (build editable : option string) : Args :=
  {| target_name := "sdist"; version := ver; path := ".";
     build_dir := None; source_dir := None; build_cmd := build;
     force := false; npm := None; editable_build_cmd := editable |}.

Definition with_npm (tool : command) : Args :=
  {| target_name := "sdist"; version := "standard"; path := ".";
     build_dir := None; source_dir := None; build_cmd := Some "build";
     force := false; npm := Some tool; editable_build_cmd := None |}.

(** ** [normalize_kwargs] *)

(** A Python [dict] with string keys: its items in insertion order, no key
    twice. *)
Definition dict (V : Type) : Type := list (string * V).

Definition keys {V : Type} (d : dict V) : list string := map fst d.

(** [d.get(k)] *)
Fixpoint dict_get {V : Type} (k : string) (d : dict V) : option V :=
  match d with
  | [] => None
  | (k', v) :: d' => if String.eqb k' k then Some v else dict_get k d'
  end.

(** [d[k] = v]: a key that is there keeps its place, a new one goes last. *)
Fixpoint dict_set {V : Type} (k : string) (v : V) (d : dict V) : dict V :=
  match d with
  | [] => [(k, v)]
  | (k', v') :: d' =>
      if String.eqb k' k then (k', v) :: d' else (k', v') :: dict_set k v d'
  end.

(** [del d[k]]; [None] stands for the [KeyError] of a missing key. *)
Fixpoint dict_del {V : Type} (k : string) (d : dict V) : option (dict V) :=
  match d with
  | [] => None
  | (k', v') :: d' =>
      if String.eqb k' k then Some d'
      else option_map (cons (k', v')) (dict_del k d')
  end.

(** ["-" in key] *)
Fixpoint has_hyphen (key : string) : bool :=
  match key with
  | EmptyString => false
  | String c key' => Ascii.eqb c "-" || has_hyphen key'
  end.

(** [key.replace("-", "_")] *)
Fixpoint replace_hyphens (key : string) : string :=
  match key with
  | EmptyString => EmptyString
  | String c key' =>
      String (if Ascii.eqb c "-" then "_"%char else c) (replace_hyphens key')
  end.

(** [for key in list(kwargs): ...] over the keys not yet visited. *)
Fixpoint normalize_loop {V : Type} (ks : list string) (kwargs : dict V) :
    option (dict V) :=
  match ks with
  | [] => Some kwargs
  | key :: ks' =>
      if has_hyphen key then
        match dict_get key kwargs with
        | None => None
        | Some v =>
            match dict_del key (dict_set (replace_hyphens key) v kwargs) with
            | None => None
            | Some kwargs' => normalize_loop ks' kwargs'
            end
        end
      else normalize_loop ks' kwargs
  end.

(** [normalize_kwargs(kwargs)]: the dictionary it returns is the one it was
    given, updated in place; [None] stands for a [KeyError]. *)
Definition normalize_kwargs {V : Type} (kwargs : dict V) : option (dict V) :=
  normalize_loop (keys kwargs) kwargs.

(** The key whose value ends up under [name]: the last key with a hyphen,
    among [ks], that is renamed to [name]. *)
Fixpoint renamed_to (name : string) (ks : list string) : option string :=
  match ks with
  | [] => None
  | k :: ks' =>
      match renamed_to name ks' with
      | Some k' => Some k'
      | None =>
          if has_hyphen k && String.eqb (replace_hyphens k) name
          then Some k else None
      end
  end.

Definition hook_kwargs : dict string :=
  [("build-dir", "lib"); ("source_dir", "src"); ("build_dir", "out");
   ("editable-build-cmd", "watch")].

(** ** [get_build_func] *)

(** [s.rpartition(sep)] for a separator of one character: the part before
    the last [sep] and the part after it, if [s] has one. *)
Fixpoint rsplit_last (sep : ascii) (s : string) : option (string * string) :=
  match s with
  | EmptyString => None
  | String c s' =>
      match rsplit_last sep s' with
      | Some (before, after) => Some (String c before, after)
      | None => if Ascii.eqb c sep then Some (EmptyString, s') else None
      end
  end.

Definition rpartition (sep : ascii) (s : string) : string * string * string :=
  match rsplit_last sep s with
  | Some (before, after) => (before, String sep EmptyString, after)
  | None => (EmptyString, EmptyString, s)
  end.

(** [sep in s] *)
Fixpoint has_char (sep : ascii) (s : string) : bool :=
  match s with
  | EmptyString => false
  | String c s' => Ascii.eqb c sep || has_char sep s'
  end.

(** The import system, a parameter: [import_module] gets the module name and
    [sys.path], and gives a module or an exception together with the
    [sys.path] it leaves (the code of a module may change it); [getattr]
    gives the attribute or an exception. *)
Record Importer (Mod Fn Err : Type) : Type := {
  (** [str(Path.cwd())] *)
  getcwd : string;
  import_module : string -> list string -> (Err + Mod) * list string;
  getattr : Mod -> string -> Err + Fn;
  (** the [IndexError] of [pop] on an empty list *)
  pop_from_empty : Err
}.

Arguments getcwd {Mod Fn Err} _.
Arguments import_module {Mod Fn Err} _ _ _.
Arguments getattr {Mod Fn Err} _ _ _.
Arguments pop_from_empty {Mod Fn Err} _.

(** [get_build_func(build_func_str)] on [sys.path]: what it returns or
    raises, and [sys.path] afterwards.  The [finally] clause pops the first
    entry whether the import raised or not; a failing [pop] replaces the
    exception of the import. *)
Definition get_build_func {Mod Fn Err : Type} (imp : Importer Mod Fn Err)
    (build_func_str : string) (sys_path : list string) :
    (Err + Fn) * list string :=
  let '(mod_name, _, func_name) := rpartition "." build_func_str in
  let '(imported, sys_path) :=
    import_module imp mod_name (getcwd imp :: sys_path) in
  match sys_path with
  | [] => (inl (pop_from_empty imp), [])
  | _ :: sys_path =>
      match imported with
      | inl e => (inl e, sys_path)
      | inr m => (getattr imp m func_name, sys_path)
      end
  end.

(** An import system for the examples: a module can be imported when its
    name is not empty, and has every attribute. *)
Definition any_module : Importer string (string * string) string :=
  {| getcwd := "/repo";
     import_module := fun name sys_path =>
       (if String.eqb name EmptyString then inl "Empty module name"
        else inr name, sys_path);
     getattr := fun m name => inr (m, name);
     pop_from_empty := "pop from empty list" |}.

(** * Properties of the staleness detector *)

Lemma walk_mtimes_Dir (es : list (string * node)) :
  walk_mtimes (Dir es) = walk_subdirs es ++ filenames es.
Proof.
  cbn [walk_mtimes]. f_equal.
  induction es as [|[name child] es IH]; cbn; [reflexivity|].
  now rewrite IH.
Qed.

Lemma in_filenames (es : list (string * node)) (mt : Q) :
  In mt (filenames es) <-> exists name, In (name, File mt) es.
Proof.
  induction es as [|[k [m|sub]] es IH]; cbn.
  - split; [tauto | intros [? []]].
  - rewrite IH. split.
    + intros [->|[name H]]; [exists k; now left | exists name; now right].
    + intros [name [H|H]]; [left; congruence | right; now exists name].
  - rewrite IH. split.
    + intros [name H]. exists name. now right.
    + intros [name [H|H]]; [discriminate | now exists name].
Qed.

Lemma in_walk_subdirs (es : list (string * node)) (mt : Q) :
  In mt (walk_subdirs es) <->
  exists name child, In (name, child) es /\ In mt (walk_mtimes child).
Proof.
  unfold walk_subdirs. rewrite in_flat_map. split.
  - intros [[name child] [Hin Hmt]]. now exists name, child.
  - intros (name & child & Hin & Hmt). now exists (name, child).
Qed.

(** The walk visits exactly the files below a node; a node that is itself a
    file is not walked. *)
Lemma file_under_walk (n : node) (mt : Q) :
  file_under n mt <-> n = File mt \/ In mt (walk_mtimes n).
Proof.
  revert mt. induction n as [m|es IH] using node_ind; intros mt.
  - split.
    + inversion 1; subst. now left.
    + intros [[= ->]|[]]. constructor.
  - rewrite walk_mtimes_Dir, in_app_iff, in_walk_subdirs, in_filenames.
    rewrite List.Forall_forall in IH. split.
    + inversion 1 as [|es' name child mt' Hin Hunder]; subst. right.
      apply (IH (name, child) Hin) in Hunder. cbn in Hunder.
      destruct Hunder as [->|Hw]; [right; now exists name|].
      left. now exists name, child.
    + intros [[=]|[(name & child & Hin & Hw)|[name Hin]]].
      * apply under_entry with name child; [assumption|].
        apply (IH (name, child) Hin). now right.
      * apply under_entry with name (File mt); [assumption|constructor].
Qed.

(** ** The two loops *)

Lemma Qgt_bool_iff (x y : Q) : Qgt_bool x y = true <-> (y < x)%Q.
Proof.
  unfold Qgt_bool. rewrite negb_true_iff, <- not_true_iff_false, Qle_bool_iff.
  split; [apply Qnot_le_lt | apply Qlt_not_le].
Qed.

Lemma Qge_bool_iff (x y : Q) : Qge_bool x y = true <-> (y <= x)%Q.
Proof. apply Qle_bool_iff. Qed.

Lemma truthy_false (x : Q) : truthy x = false -> (x == 0)%Q.
Proof.
  unfold truthy. rewrite negb_false_iff. apply Qeq_bool_eq.
Qed.

Lemma py_or_zero (x : Q) : (py_or x 0 == x)%Q.
Proof.
  unfold py_or. destruct (truthy x) eqn:E; [reflexivity|].
  symmetry. now apply truthy_false.
Qed.

Lemma compare_loop_newest (cutoff : Q) (mts : list Q) :
  compare_loop true cutoff mts = true <->
  exists mt, In mt mts /\ (cutoff < mt)%Q.
Proof.
  induction mts as [|m mts IH]; cbn.
  - split; [discriminate | intros (? & [] & _)].
  - destruct (Qgt_bool m cutoff) eqn:E.
    + apply Qgt_bool_iff in E. split; [|reflexivity].
      intros _. exists m. split; [now left | assumption].
    + rewrite IH. split.
      * intros (mt & Hin & Hlt). exists mt. split; [now right | assumption].
      * intros (mt & [->|Hin] & Hlt); [|now exists mt].
        apply Qgt_bool_iff in Hlt. congruence.
Qed.

Lemma extreme_step_newest (seen : list Q) (cur mt : Q) :
  (forall x, In x seen -> (0 <= x)%Q) -> (0 <= mt)%Q ->
  newest_so_far seen cur ->
  newest_so_far (seen ++ [mt]) (extreme_step true cur mt).
Proof.
  intros Hseen Hmt Hinv. right. unfold extreme_step, py_or.
  destruct Hinv as [[-> ->]|[Hin Hmax]].
  - replace (truthy (-1)) with true by reflexivity.
    replace (Qge_bool mt (-1)) with true
      by (symmetry; apply Qge_bool_iff; lra).
    cbn. split; [now left|]. intros x [<-|[]]. lra.
  - assert (Hcur : (0 <= cur)%Q) by now apply Hseen.
    destruct (truthy cur) eqn:Et.
    + destruct (Qge_bool mt cur) eqn:Ege.
      * apply Qge_bool_iff in Ege. split.
        -- apply in_app_iff. right. now left.
        -- intros x [Hx|[<-|[]]]%in_app_iff; [|lra].
           specialize (Hmax x Hx). lra.
      * assert (Hlt : (mt < cur)%Q).
        { apply Qnot_le_lt. intros Hle. apply Qge_bool_iff in Hle.
          congruence. }
        split.
        -- apply in_app_iff. now left.
        -- intros x [Hx|[<-|[]]]%in_app_iff; [now apply Hmax | lra].
    + apply truthy_false in Et.
      replace (Qge_bool mt mt) with true
        by (symmetry; apply Qge_bool_iff; lra).
      split.
      * apply in_app_iff. right. now left.
      * intros x [Hx|[<-|[]]]%in_app_iff; [|lra].
        specialize (Hmax x Hx). lra.
Qed.

Lemma fold_newest (mts seen : list Q) (cur : Q) :
  (forall x, In x (seen ++ mts) -> (0 <= x)%Q) ->
  newest_so_far seen cur ->
  newest_so_far (seen ++ mts) (fold_left (extreme_step true) mts cur).
Proof.
  revert seen cur. induction mts as [|mt mts IH]; intros seen cur Hpos Hinv.
  - now rewrite app_nil_r.
  - cbn [fold_left].
    replace (seen ++ mt :: mts) with ((seen ++ [mt]) ++ mts) in *
      by now rewrite <- app_assoc.
    apply IH; [assumption|].
    apply extreme_step_newest; [| |assumption].
    + intros x Hx. apply Hpos. apply in_app_iff. left.
      apply in_app_iff. now left.
    + apply Hpos. apply in_app_iff. left. apply in_app_iff. right. now left.
Qed.

(** On non-negative modification times the walk of [recursive_mtime] ends
    with the newest one. *)
Lemma fold_newest_max (mts : list Q) :
  mts <> [] -> (forall x, In x mts -> (0 <= x)%Q) ->
  let r := fold_left (extreme_step true) mts (-1)%Q in
  In r mts /\ forall x, In x mts -> (x <= r)%Q.
Proof.
  intros Hne Hpos.
  destruct (fold_newest mts [] (-1)%Q) as [[_ Hnil]|H].
  - exact Hpos.
  - now left.
  - cbn in Hnil. contradiction.
  - exact H.
Qed.

(** ** Staleness *)

Lemma compare_recursive_mtime_newest (root : node) (p : location) (c : Q) :
  compare_recursive_mtime root p c true = true <->
  exists n mt, lookup_node root p = Some n /\ file_under n mt /\ (c < mt)%Q.
Proof.
  unfold compare_recursive_mtime, path_is_file, mtime, os_walk_mtimes.
  destruct (lookup_node root p) as [[m|es]|] eqn:E; cbn.
  - destruct (Qgt_bool m c) eqn:Egt.
    + split; [intros _|reflexivity]. apply Qgt_bool_iff in Egt.
      exists (File m), m. repeat split; [constructor | assumption].
    + split; [discriminate|]. intros (n & mt & [= <-] & Hu & Hlt).
      inversion Hu; subst. apply Qgt_bool_iff in Hlt. congruence.
  - rewrite compare_loop_newest. split.
    + intros (mt & Hin & Hlt). exists (Dir es), mt. repeat split; [|assumption].
      apply file_under_walk. now right.
    + intros (n & mt & [= <-] & Hu & Hlt). exists mt. split; [|assumption].
      apply file_under_walk in Hu. now destruct Hu as [[=]|Hu].
  - split; [discriminate|]. now intros (n & mt & [=] & _).
Qed.

(** The cutoff that [is_stale] computes is the newest modification time under
    the target, when the target is a single file or no file under it predates
    the epoch. *)
Lemma target_mtime_newest (root : node) (target : location) (tn : node) (m : Q) :
  lookup_node root target = Some tn ->
  newest_under tn m ->
  path_is_file root target = true \/
    (forall mt, file_under tn mt -> (0 <= mt)%Q) ->
  (py_or (recursive_mtime root target true) 0 == m)%Q.
Proof.
  intros Ht [Hm Hmax] Hcase. rewrite py_or_zero.
  unfold recursive_mtime, path_is_file, mtime, os_walk_mtimes in *.
  rewrite Ht in *. destruct tn as [mt|es].
  - inversion Hm; subst. reflexivity.
  - destruct Hcase as [[=]|Hpos].
    assert (Hin : In m (walk_mtimes (Dir es))).
    { apply file_under_walk in Hm. now destruct Hm as [[=]|Hm]. }
    destruct (fold_newest_max (walk_mtimes (Dir es))) as [Hr Hle].
    + intros E. now rewrite E in Hin.
    + intros x Hx. apply Hpos, file_under_walk. now right.
    + specialize (Hle m Hin).
      assert ((fold_left (extreme_step true) (walk_mtimes (Dir es)) (-1) <= m)%Q).
      { apply Hmax, file_under_walk. now right. }
      lra.
Qed.

Lemma is_stale_unfold (root : node) (target source : location) (tn sn : node) :
  lookup_node root target = Some tn ->
  lookup_node root source = Some sn ->
  is_stale root target source =
  compare_recursive_mtime root source
    (py_or (recursive_mtime root target true) 0) true.
Proof.
  intros Ht Hs. unfold is_stale, path_exists. now rewrite Ht, Hs.
Qed.


(** C2: [is_stale] returns false whenever the source does not exist, whatever
    the target; it returns true whenever the source exists and the target
    does not. *)
Theorem is_stale_missing_paths (root : node) (target source : location) :
  (path_exists root source = false -> is_stale root target source = false) /\
  (path_exists root source = true -> path_exists root target = false ->
     is_stale root target source = true).
Proof.
  unfold is_stale. split.
  - now intros ->.
  - now intros -> ->.
Qed.

(** C10: for a target directory that exists and holds no file at any depth,
    and an existing source with at least one file whose modification time is
    not negative, [is_stale] returns true: [recursive_mtime] returns [-1.0]
    for the target, and that value, not [0], is the cutoff. *)
Theorem is_stale_fileless_target
    (root : node) (target source : location)
    (es : list (string * node)) (sn : node) (mt : Q) :
  lookup_node root target = Some (Dir es) ->
  (forall m, ~ file_under (Dir es) m) ->
  lookup_node root source = Some sn ->
  file_under sn mt -> (0 <= mt)%Q ->
  recursive_mtime root target true = (-1)%Q /\
  py_or (recursive_mtime root target true) 0 = (-1)%Q /\
  is_stale root target source = true.
Proof.
  intros Ht Hnone Hs Hu Hmt.
  assert (Hwalk : walk_mtimes (Dir es) = []).
  { destruct (walk_mtimes (Dir es)) as [|x l] eqn:E; [reflexivity|].
    exfalso. apply (Hnone x), file_under_walk. right. rewrite E. now left. }
  assert (Hrec : recursive_mtime root target true = (-1)%Q).
  { unfold recursive_mtime, path_is_file, os_walk_mtimes.
    now rewrite Ht, Hwalk. }
  rewrite (is_stale_unfold root target source _ sn Ht Hs), Hrec.
  repeat split. apply compare_recursive_mtime_newest.
  exists sn, mt. repeat split; [assumption..|].
  change (py_or (-1) 0) with (-1)%Q. lra.
Qed.

(** *** The staleness detector on concrete trees *)

(** Enumerates the files under a concrete node. *)
Ltac each_file H :=
  apply file_under_walk in H; cbn in H;
  destruct H as [H|H]; [discriminate H|];
  repeat (destruct H as [H|H]; [subst|]); try contradiction.

Lemma newest_under_lib :
  newest_under (Dir [("index.js", File 20)]) 20.
Proof.
  split.
  - apply under_entry with "index.js" (File 20); [now left | constructor].
  - intros mt H. each_file H. lra.
Qed.



(** The other half fails there too: every file under [src] is at most as new
    as the newest file under [lib], which is at the epoch, and [is_stale]
    returns true, because a current extreme of [0] counts as unset and the
    older [-5] replaces it. *)
Lemma is_stale_epoch_not_newest :
  exists tn sn,
    lookup_node epoch_tree ["lib"] = Some tn /\
    lookup_node epoch_tree ["src"] = Some sn /\
    newest_under tn 0 /\
    (forall mt, file_under sn mt -> (mt <= 0)%Q) /\
    recursive_mtime epoch_tree ["lib"] true = (-5)%Q /\
    is_stale epoch_tree ["lib"] ["src"] = true.
Proof.
  exists (Dir [("index.js", File 0); ("index.js.map", File (-5))]),
    (Dir [("index.ts", File (-3))]).
  repeat split.
  - apply under_entry with "index.js" (File 0); [now left | constructor].
  - intros mt H. each_file H; lra.
  - intros mt H. each_file H. lra.
Qed.

Lemma is_stale_missing_paths_witness :
  is_stale built_checkout ["lib"] ["no-such-dir"] = false /\
  is_stale built_checkout ["no-such-dir"] ["src"] = true.
Proof.
  split.
  - apply (proj1 (is_stale_missing_paths built_checkout ["lib"]
                    ["no-such-dir"])). reflexivity.
  - apply (proj2 (is_stale_missing_paths built_checkout ["no-such-dir"]
                    ["src"])); reflexivity.
Defined.

Lemma is_stale_fileless_target_witness :
  is_stale built_checkout [".git"] ["src"] = true.
Proof.
  refine (proj2 (proj2 (is_stale_fileless_target built_checkout [".git"]
                          ["src"] [] _ 10 eq_refl _ eq_refl _ _))).
  - intros m H. each_file H.
  - apply under_entry with "index.ts" (File 10); [now left | constructor].
  - lra.
Defined.

(** * Properties of the build hook *)

(** ** Lists and traces *)

Lemma py_in_In (x : string) (l : list string) :
  py_in x l = true <-> In x l.
Proof.
  unfold py_in. rewrite existsb_exists. split.
  - intros (y & Hin & ->%String.eqb_eq). exact Hin.
  - intros Hin. exists x. split; [exact Hin | apply String.eqb_refl].
Qed.

Lemma list_remove_first (x : string) (l : list string) :
  In x l ->
  exists before after,
    l = before ++ x :: after /\ ~ In x before /\
    list_remove x l = Some (before ++ after).
Proof.
  induction l as [|y l IH]; cbn; [intros []|]. intros Hin.
  destruct (String.eqb y x) eqn:E.
  - apply String.eqb_eq in E as ->. exists [], l. now repeat split.
  - apply String.eqb_neq in E.
    destruct Hin as [->|Hin]; [contradiction|].
    destruct (IH Hin) as (before & after & -> & Hnot & ->).
    exists (y :: before), after. repeat split. intros [->|H]; contradiction.
Qed.

Lemma list_remove_absent (x : string) (l : list string) :
  ~ In x l -> list_remove x l = None.
Proof.
  induction l as [|y l IH]; cbn; [reflexivity|]. intros Hnot.
  destruct (String.eqb y x) eqn:E.
  - apply String.eqb_eq in E. tauto.
  - rewrite IH; [reflexivity | tauto].
Qed.

Lemma spawned_app (t1 t2 : list event) :
  spawned (t1 ++ t2) = spawned t1 ++ spawned t2.
Proof.
  induction t1 as [|[lvl msg|cmd cwd shell] t1 IH]; cbn; [reflexivity|..].
  - exact IH.
  - now rewrite IH.
Qed.

(** ** The skip decision *)

Lemma skip_requested_spec (w : World) :
  skip_requested w =
  (Ok (skip_signal w),
   if skip_signal w then
     {| root := root w; environ := environ w;
        argv := default (argv w) (list_remove skip_flag (argv w));
        trace := trace w ++ [skip_log] |}
   else w).
Proof.
  unfold skip_requested, skip_signal, bind, gets, log_info, emit, set_argv,
    ret, raise. cbn [argv root environ trace].
  destruct (py_in skip_flag (argv w)) eqn:Ein; cbn [orb].
  - rewrite Ein. cbn [argv root environ trace].
    apply py_in_In, list_remove_first in Ein.
    destruct Ein as (before & after & _ & _ & ->). reflexivity.
  - destruct (bool_decide (environ w !! skip_env = Some "1"));
      [rewrite Ein|reflexivity].
    rewrite list_remove_absent; [reflexivity|].
    rewrite <- py_in_In. congruence.
Qed.

(** A skipped call logs and returns. *)
Lemma npm_builder_skips (h : Host) (a : Args) (w : World) :
  skip_signal w || implicit_skip h a w = true ->
  npm_builder h a w =
  (Ok tt,
   let w1 := snd (skip_requested w) in
   with_trace w1 (trace w1 ++ [skipped_log])).
Proof.
  intros Hskip. unfold npm_builder, bind at 1 2.
  rewrite skip_requested_spec. cbn [snd gets].
  assert (Hroot : root (if skip_signal w
                        then {| root := root w; environ := environ w;
                                argv := default (argv w)
                                          (list_remove skip_flag (argv w));
                                trace := trace w ++ [skip_log] |}
                        else w) = root w)
    by now destruct (skip_signal w).
  rewrite Hroot. unfold implicit_skip in Hskip.
  destruct (String.eqb (target_name a) "wheel"
            && negb (path_exists (root w) (locate h (path a) ++ [".git"]))
            && negb (force a)).
  - reflexivity.
  - rewrite orb_false_r in Hskip. rewrite Hskip. reflexivity.
Qed.

(** A call that is not skipped resolves the tool and goes on to the build
    decision, with the world as it was. *)
Lemma npm_builder_proceeds (h : Host) (a : Args) (w : World) :
  skip_signal w = false -> implicit_skip h a w = false ->
  npm_builder h a w =
  bind (tool_command h a (locate h (path a)))
    (build h a (locate h (path a))
       (if String.eqb (version a) "editable"
        then str_or (editable_build_cmd a) (build_cmd a)
        else build_cmd a)) w.
Proof.
  intros Hsig Himp. unfold npm_builder, bind at 1 2.
  rewrite skip_requested_spec, Hsig. cbn [gets].
  unfold implicit_skip in Himp. rewrite Himp. reflexivity.
Qed.

(** C5: a call for the ["wheel"] target with [force=False], on a base path
    without a [.git] entry, returns normally and starts no child process. *)
Theorem npm_builder_wheel_outside_checkout (h : Host) (a : Args) (w : World) :
  target_name a = "wheel" ->
  force a = false ->
  path_exists (root w) (locate h (path a) ++ [".git"]) = false ->
  exists w',
    npm_builder h a w = (Ok tt, w') /\
    root w' = root w /\
    spawned (trace w') = spawned (trace w).
Proof.
  intros Htarget Hforce Hgit.
  rewrite npm_builder_skips.
  - eexists. split; [reflexivity|].
    rewrite skip_requested_spec. cbn [snd].
    destruct (skip_signal w); cbn [with_trace root trace];
      rewrite !spawned_app; cbn; now rewrite ?app_nil_r.
  - unfold implicit_skip. rewrite Htarget, Hforce, Hgit. apply orb_true_r.
Qed.

Lemma npm_builder_wheel_outside_checkout_witness :
  exists w',
    npm_builder (posix_host 0) (wheel_args (Some "lib") (Some "src") false)
      (world_of unpacked_sdist ["hatch"; "build"] no_env) = (Ok tt, w') /\
    root w' = unpacked_sdist /\
    spawned (trace w') = [].
Proof.
  apply (npm_builder_wheel_outside_checkout (posix_host 0)
           (wheel_args (Some "lib") (Some "src") false)
           (world_of unpacked_sdist ["hatch"; "build"] no_env));
    reflexivity.
Defined.

(** C6: whatever the arguments, if the skip variable of the environment
    equals ["1"] or [--skip-npm] is in the argument list, the call logs and
    returns normally without starting a child process; the file system and
    the environment are as before; an argument list without the flag is as
    before, and from one with the flag the flag is taken out (where it first
    occurs, as [list.remove] does) and nothing else changes. *)
Theorem npm_builder_skip_signal (h : Host) (a : Args) (w : World) :
  environ w !! skip_env = Some "1" \/ In skip_flag (argv w) ->
  exists w',
    npm_builder h a w = (Ok tt, w') /\
    trace w' = trace w ++ [skip_log; skipped_log] /\
    root w' = root w /\
    environ w' = environ w /\
    (~ In skip_flag (argv w) -> argv w' = argv w) /\
    (In skip_flag (argv w) ->
     exists before after,
       argv w = before ++ skip_flag :: after /\
       ~ In skip_flag before /\
       argv w' = before ++ after).
Proof.
  intros Hsignal.
  assert (Hsig : skip_signal w = true).
  { unfold skip_signal. destruct Hsignal as [Henv|Hflag].
    - rewrite (bool_decide_eq_true_2 _ Henv). apply orb_true_r.
    - apply py_in_In in Hflag. now rewrite Hflag. }
  rewrite npm_builder_skips by now rewrite Hsig.
  eexists. split; [reflexivity|].
  rewrite skip_requested_spec, Hsig. cbn [snd with_trace root environ argv trace].
  repeat split.
  - now rewrite <- app_assoc.
  - intros Hnot. now rewrite list_remove_absent.
  - intros Hin. destruct (list_remove_first _ _ Hin)
      as (before & after & Hargv & Hnot & ->).
    now exists before, after.
Qed.

Lemma npm_builder_skip_signal_witness :
  exists w',
    npm_builder (posix_host 0) (wheel_args None None true)
      (world_of edited_checkout ["hatch"; "--skip-npm"; "build"] no_env)
    = (Ok tt, w') /\
    trace w' = [skip_log; skipped_log] /\
    argv w' = ["hatch"; "build"].
Proof.
  destruct (npm_builder_skip_signal (posix_host 0) (wheel_args None None true)
              (world_of edited_checkout ["hatch"; "--skip-npm"; "build"] no_env))
    as (w' & Hrun & Htrace & _ & _ & _ & Hargv).
  - right. right. now left.
  - exists w'. split; [exact Hrun|]. split; [exact Htrace|].
    destruct Hargv as (before & after & Hsplit & Hnot & ->).
    + right. now left.
    + destruct before as [|b0 before]; [discriminate Hsplit|].
      destruct before as [|b1 before].
      * now injection Hsplit as <- <-.
      * exfalso. apply Hnot. injection Hsplit as <- <- _. right. now left.
Defined.

(** ** Tool resolution *)

Lemma default_npm_spec (h : Host) (abs_path : location) (w : World) :
  default_npm h abs_path w =
  (Ok (if path_exists (root w) (abs_path ++ ["yarn.lock"])
          && str_truthy (which h (root w) "yarn")
       then ["yarn"] else ["npm"]),
   if path_exists (root w) (abs_path ++ ["yarn.lock"])
      && negb (str_truthy (which h (root w) "yarn"))
   then with_trace w (trace w ++ [yarn_warning]) else w).
Proof.
  unfold default_npm, bind, gets, log_warning, emit, ret.
  destruct (path_exists (root w) (abs_path ++ ["yarn.lock"])); [|reflexivity].
  now destruct (str_truthy (which h (root w) "yarn")).
Qed.



(** ** [normalize_cmd] and [run] *)

Lemma normalize_cmd_tokens (h : Host) (cmd : command) (w : World)
    (cmd0 : string) (args : list string) :
  split_cmd h cmd = inr (cmd0 :: args) ->
  normalize_cmd h cmd w =
  if is_absolute h cmd0 then (Ok (cmd0 :: args), w)
  else if str_truthy (which h (root w) cmd0)
       then (Ok (default EmptyString (which h (root w) cmd0) :: args), w)
       else (Raise (ValueError (not_found_message cmd0)), w).
Proof.
  intros Hsplit. unfold normalize_cmd, bind, gets, ret, raise.
  rewrite Hsplit. destruct (is_absolute h cmd0); [reflexivity|]. cbn [negb].
  now destruct (str_truthy (which h (root w) cmd0)).
Qed.

(** C8: [normalize_cmd] splits a string with [shlex.split] in the mode of the
    platform (POSIX rules unless [os.name] is ["nt"]).  If the first token is
    not an absolute path and [which] does not find it, a [ValueError] whose
    message names that token is raised, by [normalize_cmd] and by [run], with
    the world untouched, so before any child process; if the first token is
    an absolute path the command comes back as it is, without a search. *)
Theorem normalize_cmd_unresolved (h : Host) (cmd : command) (w : World)
    (cmd0 : string) (args : list string) :
  split_cmd h cmd = inr (cmd0 :: args) ->
  (forall s, split_cmd h (CmdStr s)
             = shlex_split h (negb (String.eqb (os_name h) "nt")) s) /\
  (is_absolute h cmd0 = false ->
   str_truthy (which h (root w) cmd0) = false ->
   normalize_cmd h cmd w = (Raise (ValueError (not_found_message cmd0)), w) /\
   names (not_found_message cmd0) cmd0 /\
   forall cwd,
     run h cmd cwd w = (Raise (ValueError (not_found_message cmd0)), w)) /\
  (is_absolute h cmd0 = true ->
   normalize_cmd h cmd w = (Ok (cmd0 :: args), w)).
Proof.
  intros Hsplit. split; [reflexivity|]. split.
  - intros Habs Hwhich.
    assert (Hnorm : normalize_cmd h cmd w
                    = (Raise (ValueError (not_found_message cmd0)), w))
      by now rewrite (normalize_cmd_tokens h cmd w cmd0 args Hsplit),
           Habs, Hwhich.
    split; [exact Hnorm|]. split.
    + now exists "Aborting. Could not find cmd (",
        (") in path. If command is not expected to be in user's path, "
         +:+ "use an absolute path.").
    + intros cwd. unfold run, bind at 1. now rewrite Hnorm.
  - intros Habs.
    now rewrite (normalize_cmd_tokens h cmd w cmd0 args Hsplit), Habs.
Qed.

Lemma normalize_cmd_unresolved_witness :
  run (posix_host 0) (CmdStr "jlpm run build") []
    (world_of built_checkout [] no_env)
  = (Raise (ValueError (not_found_message "jlpm")),
     world_of built_checkout [] no_env) /\
  normalize_cmd (posix_host 0) (CmdStr "/opt/node/bin/npm install")
    (world_of built_checkout [] no_env)
  = (Ok ["/opt/node/bin/npm"; "install"], world_of built_checkout [] no_env).
Proof.
  split.
  - refine (proj2 (proj2 (proj1 (proj2
      (normalize_cmd_unresolved (posix_host 0) (CmdStr "jlpm run build")
         (world_of built_checkout [] no_env) "jlpm" ["run"; "build"] eq_refl))
      eq_refl eq_refl)) []).
  - refine (proj2 (proj2
      (normalize_cmd_unresolved (posix_host 0)
         (CmdStr "/opt/node/bin/npm install")
         (world_of built_checkout [] no_env) "/opt/node/bin/npm" ["install"]
         eq_refl)) eq_refl).
Defined.

(** ** [ensure_targets] *)

(** C9: if every path of the list exists, [ensure_targets] returns [None]
    and leaves the world as it was; if some path does not exist, it raises a
    [ValueError] whose message names a path of the list that does not exist,
    and leaves the world as it was. *)
Theorem ensure_targets_guard (h : Host) (targets : list string) (w : World) :
  ((forall t, In t targets -> path_exists (root w) (locate h t) = true) ->
   ensure_targets h targets w = (Ok tt, w)) /\
  ((exists t, In t targets /\ path_exists (root w) (locate h t) = false) ->
   exists t,
     In t targets /\ path_exists (root w) (locate h t) = false /\
     names (missing_target_message t) t /\
     ensure_targets h targets w
     = (Raise (ValueError (missing_target_message t)), w)).
Proof.
  induction targets as [|t ts [IHall IHsome]]; cbn [ensure_targets].
  - split; [reflexivity|]. now intros (t & [] & _).
  - unfold bind, gets.
    destruct (path_exists (root w) (locate h t)) eqn:Et; cbn [negb]; split.
    + intros Hall. apply IHall. intros t' Ht'. apply Hall. now right.
    + intros (t' & [<-|Hin] & Hmiss); [congruence|].
      destruct IHsome as (t'' & Hin'' & Hmiss'' & Hnames & Hrun);
        [now exists t'|].
      exists t''. repeat split; [now right|assumption..].
    + intros Hall. specialize (Hall t (or_introl eq_refl)). congruence.
    + intros _. exists t. repeat split; [now left | assumption|].
      now exists ("Ensured target " +:+ dquote),
        (dquote +:+ " does not exist").
Qed.

Lemma ensure_targets_guard_witness :
  ensure_targets (posix_host 0) ["lib/index.js"; "src/widgets/w.ts"]
    (world_of built_checkout [] no_env)
  = (Ok tt, world_of built_checkout [] no_env) /\
  exists t,
    In t ["lib/index.js"; "lib/index.js.map"] /\
    ensure_targets (posix_host 0) ["lib/index.js"; "lib/index.js.map"]
      (world_of built_checkout [] no_env)
    = (Raise (ValueError (missing_target_message t)),
       world_of built_checkout [] no_env).
Proof.
  split.
  - apply (proj1 (ensure_targets_guard (posix_host 0)
                    ["lib/index.js"; "src/widgets/w.ts"]
                    (world_of built_checkout [] no_env))).
    intros t [<-|[<-|[]]]; reflexivity.
  - destruct (proj2 (ensure_targets_guard (posix_host 0)
                       ["lib/index.js"; "lib/index.js.map"]
                       (world_of built_checkout [] no_env)))
      as (t & Hin & _ & _ & Hrun).
    + exists "lib/index.js.map". split; [right; now left | reflexivity].
    + now exists t.
Defined.

(** ** Running the tool *)

Lemma normalize_cmd_world (h : Host) (cmd : command) (w : World) :
  snd (normalize_cmd h cmd w) = w.
Proof.
  unfold normalize_cmd, bind, gets, ret, raise.
  destruct (split_cmd h cmd) as [msg|[|cmd0 args]]; [reflexivity..|].
  destruct (is_absolute h cmd0); [reflexivity|]. cbn [negb].
  now destruct (str_truthy (which h (root w) cmd0)).
Qed.

Lemma normalize_cmd_resolvable (h : Host) (cmd : list string) (w : World) :
  resolvable h (root w) cmd = true ->
  normalize_cmd h (CmdList cmd) w = (Ok (normalized h (root w) cmd), w).
Proof.
  destruct cmd as [|cmd0 args]; [discriminate|]. cbn [resolvable normalized].
  intros Hres.
  rewrite (normalize_cmd_tokens h (CmdList (cmd0 :: args)) w cmd0 args eq_refl).
  destruct (is_absolute h cmd0); [reflexivity|]. cbn in Hres.
  now rewrite Hres.
Qed.

Lemma run_normalized (h : Host) (cmd : command) (cwd : location) (w : World)
    (cmd' : list string) :
  normalize_cmd h cmd w = (Ok cmd', w) ->
  run h cmd cwd w =
  (if Z.eqb (exit_code h cmd' cwd (root w)) 0 then Ok 0%Z
   else Raise (CalledProcessError (exit_code h cmd' cwd (root w)) cmd'),
   after_call h cmd' cwd w).
Proof.
  intros Hnorm. unfold run, bind at 1. rewrite Hnorm.
  unfold check_call, bind, log_info, emit, gets, set_root, ret, raise,
    exit_code, after_call.
  cbn [root environ argv trace].
  now destruct (Z.eqb _ 0).
Qed.

(** Whatever [run] does, it only adds to the trace. *)
Lemma run_trace (h : Host) (cmd : command) (cwd : location) (w : World) :
  exists evs, trace (snd (run h cmd cwd w)) = trace w ++ evs.
Proof.
  destruct (normalize_cmd h cmd w) as [[cmd'|e] w'] eqn:Hnorm.
  - assert (w' = w) as -> by now rewrite <- (normalize_cmd_world h cmd w), Hnorm.
    rewrite (run_normalized h cmd cwd w cmd' Hnorm). cbn [snd after_call trace].
    eexists. now rewrite <- app_assoc.
  - assert (w' = w) as -> by now rewrite <- (normalize_cmd_world h cmd w), Hnorm.
    unfold run, bind at 1. rewrite Hnorm. exists []. now rewrite app_nil_r.
Qed.

Lemma default_npm_frame (h : Host) (abs_path : location) (w : World) :
  let w' := snd (default_npm h abs_path w) in
  root w' = root w /\ spawned (trace w') = spawned (trace w).
Proof.
  rewrite default_npm_spec. cbn [snd].
  destruct (_ && negb _); [|now split]. cbn [with_trace root trace].
  split; [reflexivity|]. rewrite spawned_app. cbn. apply app_nil_r.
Qed.

(** Resolving the tool starts no child process and leaves the files alone. *)
Lemma tool_command_frame (h : Host) (a : Args) (abs_path : location)
    (w w' : World) (r : result (list string)) :
  tool_command h a abs_path w = (r, w') ->
  root w' = root w /\ spawned (trace w') = spawned (trace w).
Proof.
  unfold tool_command.
  assert (Hnorm : forall c w0 w1 r0,
             normalize_cmd h c w0 = (r0, w1) -> w1 = w0).
  { intros c w0 w1 r0 E. now rewrite <- (normalize_cmd_world h c w0), E. }
  destruct (npm a) as [[s|l]|].
  - unfold bind, ret. intros ->%Hnorm. now split.
  - unfold bind, ret. intros ->%Hnorm. now split.
  - unfold bind at 1 2. rewrite default_npm_spec. unfold ret at 1.
    intros ->%Hnorm.
    pose proof (default_npm_frame h abs_path w) as Hframe.
    now rewrite default_npm_spec in Hframe.
Qed.

(** ** The build decision *)

Lemma resolvable_app (h : Host) (fs : node) (cmd more : list string) :
  resolvable h fs cmd = true -> resolvable h fs (cmd ++ more) = true.
Proof. now destruct cmd. Qed.

Lemma build_not_needed (h : Host) (a : Args) (abs_path : location)
    (bc : option string) (npm_cmd : list string) (w : World) :
  str_truthy (build_dir a) = true -> str_truthy (source_dir a) = true ->
  force a = false -> stale_dirs h a (root w) = false ->
  build h a abs_path bc npm_cmd w = (Ok tt, w).
Proof.
  intros Hb Hs Hf Hstale. unfold build, should_build, bind at 1, gets.
  rewrite Hb, Hs, Hf. cbn [andb negb].
  unfold stale_dirs in Hstale. now rewrite Hstale.
Qed.

Lemma build_needed (h : Host) (a : Args) (abs_path : location)
    (bc : option string) (npm_cmd : list string) (w : World) :
  force a = true \/ str_truthy (build_dir a) = false \/
    str_truthy (source_dir a) = false \/ stale_dirs h a (root w) = true ->
  resolvable h (root w) npm_cmd = true ->
  let install := normalized h (root w) (install_cmd npm_cmd) in
  let w2 := after_call h install abs_path
              (with_trace w (trace w ++ [install_log])) in
  build h a abs_path bc npm_cmd w =
  if Z.eqb (exit_code h install abs_path (root w)) 0 then
    if str_truthy bc
    then bind (run h (CmdList (run_cmd npm_cmd bc)) abs_path)
           (fun _ => ret tt) w2
    else (Ok tt, w2)
  else (Raise (CalledProcessError (exit_code h install abs_path (root w))
                 install), w2).
Proof.
  intros Hneed Hres install w2.
  assert (Hdecide : should_build h a w = (Ok true, w)).
  { unfold should_build, gets, ret, stale_dirs in *.
    destruct (str_truthy (build_dir a)); [|reflexivity].
    destruct (str_truthy (source_dir a)); [|reflexivity].
    destruct (force a); [reflexivity|]. cbn [andb negb].
    destruct Hneed as [H|[H|[H|H]]]; try discriminate H. now rewrite H. }
  unfold build, bind at 1. rewrite Hdecide.
  unfold bind at 1, log_info, emit. fold install_log.
  change {| root := root w; environ := environ w; argv := argv w;
            trace := trace w ++ [install_log] |}
    with (with_trace w (trace w ++ [install_log])).
  unfold bind at 1. fold (install_cmd npm_cmd).
  rewrite (run_normalized h _ abs_path _ install).
  - cbn [with_trace root]. fold w2.
    destruct (Z.eqb (exit_code h install abs_path (root w)) 0);
      [|reflexivity].
    destruct (str_truthy bc); reflexivity.
  - apply (normalize_cmd_resolvable h (install_cmd npm_cmd)
             (with_trace w (trace w ++ [install_log]))).
    now apply resolvable_app.
Qed.

Lemma bind_ret_tt_world {A : Type} (c : M A) (w : World) :
  snd (bind c (fun _ => ret tt) w) = snd (c w).
Proof. unfold bind, ret. now destruct (c w) as [[x|e] w']. Qed.

(** A build that is needed starts the install command first. *)
Lemma build_invokes (h : Host) (a : Args) (abs_path : location)
    (bc : option string) (npm_cmd : list string) (w : World) :
  force a = true \/ str_truthy (build_dir a) = false \/
    str_truthy (source_dir a) = false \/ stale_dirs h a (root w) = true ->
  resolvable h (root w) npm_cmd = true ->
  exists more,
    spawned (trace (snd (build h a abs_path bc npm_cmd w))) =
    spawned (trace w)
    ++ (normalized h (root w) (install_cmd npm_cmd), abs_path) :: more.
Proof.
  intros Hneed Hres. rewrite (build_needed h a abs_path bc npm_cmd w Hneed Hres).
  set (install := normalized h (root w) (install_cmd npm_cmd)).
  set (w2 := after_call h install abs_path
               (with_trace w (trace w ++ [install_log]))).
  assert (Hw2 : spawned (trace w2)
                = spawned (trace w) ++ [(install, abs_path)]).
  { unfold w2, after_call, with_trace. cbn [trace].
    rewrite !spawned_app. cbn. now rewrite !app_nil_r. }
  destruct (Z.eqb _ 0); [destruct (str_truthy bc)|]; cbn [snd].
  - rewrite bind_ret_tt_world.
    destruct (run_trace h (CmdList (run_cmd npm_cmd bc)) abs_path w2)
      as [evs ->].
    rewrite spawned_app, Hw2, <- app_assoc. now exists (spawned evs).
  - exists []. exact Hw2.
  - exists []. exact Hw2.
Qed.

(** C3: take a call that is not skipped and whose tool resolves, to
    [npm_cmd], itself a command that [run] can resolve.  If [build_dir] and
    [source_dir] are both given (not [None], not empty) and [force] is false,
    a child process is started if and only if [is_stale(build_dir,
    source_dir)] is true; if one of the directories is missing or [force] is
    true, one is started always.  When both are given, [is_stale] is false
    and [force] is false, the call returns normally and no child process is
    started at all. *)
Theorem npm_builder_build_decision (h : Host) (a : Args) (w w1 : World)
    (npm_cmd : list string) :
  skip_signal w = false ->
  implicit_skip h a w = false ->
  tool_command h a (locate h (path a)) w = (Ok npm_cmd, w1) ->
  resolvable h (root w) npm_cmd = true ->
  (str_truthy (build_dir a) = true -> str_truthy (source_dir a) = true ->
   force a = false ->
   (invoked w (snd (npm_builder h a w)) <-> stale_dirs h a (root w) = true)) /\
  (str_truthy (build_dir a) = false \/ str_truthy (source_dir a) = false \/
   force a = true ->
   invoked w (snd (npm_builder h a w))) /\
  (str_truthy (build_dir a) = true -> str_truthy (source_dir a) = true ->
   force a = false -> stale_dirs h a (root w) = false ->
   npm_builder h a w = (Ok tt, w1) /\
   spawned (trace w1) = spawned (trace w)).
Proof.
  intros Hsig Himp Htool Hres.
  destruct (tool_command_frame h a _ w w1 _ Htool) as [Hroot Hspawn].
  assert (Hrun : npm_builder h a w
                 = build h a (locate h (path a)) (effective_build_cmd a)
                     npm_cmd w1).
  { rewrite (npm_builder_proceeds h a w Hsig Himp). unfold bind at 1.
    now rewrite Htool. }
  assert (Hyes : force a = true \/ str_truthy (build_dir a) = false \/
                   str_truthy (source_dir a) = false \/
                   stale_dirs h a (root w) = true ->
                 invoked w (snd (npm_builder h a w))).
  { intros Hneed. rewrite Hrun. rewrite <- Hroot in Hneed, Hres.
    destruct (build_invokes h a (locate h (path a)) (effective_build_cmd a)
                npm_cmd w1 Hneed Hres) as [more Hmore].
    eexists. split; [|rewrite Hmore, Hspawn; reflexivity]. discriminate. }
  assert (Hno : str_truthy (build_dir a) = true ->
                str_truthy (source_dir a) = true ->
                force a = false -> stale_dirs h a (root w) = false ->
                npm_builder h a w = (Ok tt, w1)).
  { intros Hb Hs Hf Hstale. rewrite Hrun. apply build_not_needed; try assumption.
    now rewrite Hroot. }
  split; [|split].
  - intros Hb Hs Hf. split; [|intros Hstale; apply Hyes; tauto].
    intros (more & Hne & Hmore).
    destruct (stale_dirs h a (root w)) eqn:Hstale; [reflexivity|].
    rewrite (Hno Hb Hs Hf eq_refl) in Hmore. cbn [snd] in Hmore.
    rewrite Hspawn in Hmore.
    rewrite <- (app_nil_r (spawned (trace w))) in Hmore at 1.
    apply app_inv_head in Hmore. congruence.
  - intros Hcase. apply Hyes. tauto.
  - intros Hb Hs Hf Hstale. split; [now apply Hno | exact Hspawn].
Qed.

Lemma npm_builder_build_decision_witness :
  npm_builder (posix_host 0) (wheel_args (Some "lib") (Some "src") false)
    (world_of built_checkout ["hatch"] no_env)
  = (Ok tt, world_of built_checkout ["hatch"] no_env) /\
  invoked (world_of edited_checkout ["hatch"] no_env)
    (snd (npm_builder (posix_host 0)
            (wheel_args (Some "lib") (Some "src") false)
            (world_of edited_checkout ["hatch"] no_env))).
Proof.
  split.
  - destruct (npm_builder_build_decision (posix_host 0)
                (wheel_args (Some "lib") (Some "src") false)
                (world_of built_checkout ["hatch"] no_env)
                (world_of built_checkout ["hatch"] no_env) ["/usr/bin/npm"])
      as (_ & _ & Hquiet); [reflexivity..|].
    apply Hquiet; reflexivity.
  - destruct (npm_builder_build_decision (posix_host 0)
                (wheel_args (Some "lib") (Some "src") false)
                (world_of edited_checkout ["hatch"] no_env)
                (world_of edited_checkout ["hatch"] no_env) ["/usr/bin/npm"])
      as (Hiff & _ & _); [reflexivity..|].
    apply Hiff; reflexivity.
Defined.

(** A tool that cannot be resolved aborts the call before any child
    process. *)
Lemma npm_builder_tool_missing (h : Host) (a : Args) (w w1 : World) (e : exn) :
  skip_signal w = false ->
  implicit_skip h a w = false ->
  tool_command h a (locate h (path a)) w = (Raise e, w1) ->
  npm_builder h a w = (Raise e, w1) /\
  spawned (trace w1) = spawned (trace w).
Proof.
  intros Hsig Himp Htool.
  destruct (tool_command_frame h a _ w w1 _ Htool) as [_ Hspawn].
  split; [|exact Hspawn].
  rewrite (npm_builder_proceeds h a w Hsig Himp). unfold bind at 1.
  now rewrite Htool.
Qed.

(** [test_npm_builder_no_npm] *)
Example npm_builder_no_npm :
  npm_builder (posix_host 0) (wheel_args None None false)
    (world_of checkout_without_npm ["hatch"] no_env)
  = (Raise (ValueError (not_found_message "npm")),
     world_of checkout_without_npm ["hatch"] no_env).
Proof. reflexivity. Qed.

(** ** Wheels from a checkout *)

(** C4, as stated, fails: a ["wheel"] call in a git checkout, with no skip
    signal, whose [build_dir] is not stale with respect to its [source_dir],
    returns without starting any child process (the case of
    [test_npm_builder_not_stale]). *)
Lemma wheel_in_checkout_built_runs_nothing :
  let a := wheel_args (Some "lib") (Some "src") false in
  let w := world_of built_checkout ["hatch"; "build"] no_env in
  target_name a = "wheel" /\
  path_exists (root w) (locate (posix_host 0) (path a) ++ [".git"]) = true /\
  skip_signal w = false /\
  npm_builder (posix_host 0) a w = (Ok tt, w) /\
  spawned (trace (snd (npm_builder (posix_host 0) a w))) = [].
Proof. repeat split. Qed.

(** C4 (as amended): a ["wheel"] call in a git checkout, with no skip signal,
    is not skipped, whatever [force] is.  If its tool resolves, to a command
    that [run] can resolve, and the build is needed ([force] is true, or
    [build_dir] and [source_dir] are not both given, or [build_dir] is
    stale), then the install command is started first; and if that one exits
    with 0, a build command is set and the tool still resolves, the build
    command is started next, and nothing else. *)
Theorem npm_builder_wheel_checkout (h : Host) (a : Args) (w w1 : World)
    (npm_cmd : list string) :
  target_name a = "wheel" ->
  path_exists (root w) (locate h (path a) ++ [".git"]) = true ->
  skip_signal w = false ->
  tool_command h a (locate h (path a)) w = (Ok npm_cmd, w1) ->
  resolvable h (root w) npm_cmd = true ->
  force a = true \/ str_truthy (build_dir a) = false \/
    str_truthy (source_dir a) = false \/ stale_dirs h a (root w) = true ->
  let abs_path := locate h (path a) in
  let install := normalized h (root w) (install_cmd npm_cmd) in
  let fs2 := files_after h install abs_path (root w) in
  exists more,
    spawned (trace (snd (npm_builder h a w))) =
    spawned (trace w) ++ (install, abs_path) :: more /\
    (exit_code h install abs_path (root w) = 0%Z ->
     str_truthy (effective_build_cmd a) = true ->
     resolvable h fs2 npm_cmd = true ->
     more = [(normalized h fs2 (run_cmd npm_cmd (effective_build_cmd a)),
              abs_path)]).
Proof.
  intros Htarget Hgit Hsig Htool Hres Hneed abs_path install fs2.
  assert (Himp : implicit_skip h a w = false).
  { unfold implicit_skip. rewrite Hgit. cbn [negb]. now rewrite andb_false_r. }
  destruct (tool_command_frame h a _ w w1 _ Htool) as [Hroot Hspawn].
  assert (Hrun : npm_builder h a w
                 = build h a abs_path (effective_build_cmd a) npm_cmd w1).
  { rewrite (npm_builder_proceeds h a w Hsig Himp). unfold bind at 1.
    now rewrite Htool. }
  rewrite Hrun. rewrite <- Hroot in Hneed, Hres.
  destruct (build_invokes h a abs_path (effective_build_cmd a) npm_cmd w1
              Hneed Hres) as [more Hmore].
  rewrite Hroot in Hmore. fold install in Hmore.
  exists more. split; [now rewrite Hmore, Hspawn|].
  intros Hexit Hbc Hres2.
  rewrite (build_needed h a abs_path (effective_build_cmd a) npm_cmd w1
             Hneed Hres) in Hmore.
  rewrite Hroot in Hmore. fold install in Hmore.
  rewrite Hexit, Hbc in Hmore. cbn [Z.eqb] in Hmore.
  rewrite bind_ret_tt_world in Hmore.
  set (w2 := after_call h install abs_path
               (with_trace w1 (trace w1 ++ [install_log]))) in Hmore.
  assert (Hfs2 : root w2 = fs2).
  { unfold w2, after_call, fs2, files_after. cbn [root with_trace].
    now rewrite Hroot. }
  rewrite (run_normalized h _ abs_path w2
             (normalized h fs2 (run_cmd npm_cmd (effective_build_cmd a))))
    in Hmore.
  - unfold w2, after_call, with_trace in Hmore. cbn [snd trace] in Hmore.
    rewrite !spawned_app in Hmore. cbn in Hmore.
    rewrite !app_nil_r, <- app_assoc in Hmore.
    apply app_inv_head in Hmore. cbn in Hmore. now injection Hmore as <-.
  - rewrite <- Hfs2.
    apply (normalize_cmd_resolvable h
             (run_cmd npm_cmd (effective_build_cmd a)) w2).
    rewrite Hfs2. now apply resolvable_app.
Qed.

Lemma npm_builder_wheel_checkout_witness :
  spawned (trace (snd (npm_builder (posix_host 0) (wheel_args None None true)
                         (world_of built_checkout ["hatch"] no_env))))
  = [(["/usr/bin/npm"; "install"], []);
     (["/usr/bin/npm"; "run"; "build"], [])].
Proof.
  destruct (npm_builder_wheel_checkout (posix_host 0)
              (wheel_args None None true)
              (world_of built_checkout ["hatch"] no_env)
              (world_of built_checkout ["hatch"] no_env) ["/usr/bin/npm"])
    as (more & -> & Hmore); [reflexivity..|now left|].
  rewrite Hmore; reflexivity.
Defined.

(** * Further properties of the staleness detector *)

Lemma Qlt_bool_iff (x y : Q) : Qlt_bool x y = true <-> (x < y)%Q.
Proof.
  unfold Qlt_bool. rewrite negb_true_iff, <- not_true_iff_false, Qle_bool_iff.
  split; [apply Qnot_le_lt | apply Qlt_not_le].
Qed.

Lemma exceeds_iff (newest : bool) (cutoff mt : Q) :
  exceeds newest cutoff mt = true <->
  if newest then (cutoff < mt)%Q else (mt < cutoff)%Q.
Proof.
  destruct newest; cbn; [apply Qgt_bool_iff | apply Qlt_bool_iff].
Qed.

Lemma compare_loop_iff (newest : bool) (cutoff : Q) (mts : list Q) :
  compare_loop newest cutoff mts = true <->
  exists mt, In mt mts /\ exceeds newest cutoff mt = true.
Proof.
  induction mts as [|m mts IH]; cbn [compare_loop].
  - split; [discriminate | intros (? & [] & _)].
  - destruct (exceeds newest cutoff m) eqn:E.
    + split; [|reflexivity]. intros _. exists m. split; [now left | exact E].
    + rewrite IH. split.
      * intros (mt & Hin & Hex). exists mt. split; [now right | exact Hex].
      * intros (mt & [->|Hin] & Hex); [congruence | now exists mt].
Qed.

(** [compare_recursive_mtime(path, cutoff, newest)] is true exactly when some
    file at or below [path] has a modification time strictly newer than the
    cutoff (strictly older, when [newest] is false); so it is false for a path
    that does not exist and for a directory without files. *)
Theorem compare_recursive_mtime_iff
    (root : node) (p : location) (cutoff : Q) (newest : bool) :
  compare_recursive_mtime root p cutoff newest = true <->
  exists n mt,
    lookup_node root p = Some n /\ file_under n mt /\
    if newest then (cutoff < mt)%Q else (mt < cutoff)%Q.
Proof.
  unfold compare_recursive_mtime, path_is_file, mtime, os_walk_mtimes.
  destruct (lookup_node root p) as [[m|es]|] eqn:E; cbn [andb].
  - destruct (exceeds newest cutoff m) eqn:Ex.
    + split; [intros _|reflexivity]. apply exceeds_iff in Ex.
      exists (File m), m. repeat split; [constructor | exact Ex].
    + split; [discriminate|]. intros (n & mt & [= <-] & Hu & Hcmp).
      inversion Hu; subst. apply exceeds_iff in Hcmp. congruence.
  - rewrite compare_loop_iff. split.
    + intros (mt & Hin & Hex). exists (Dir es), mt.
      repeat split; [|now apply exceeds_iff].
      apply file_under_walk. now right.
    + intros (n & mt & [= <-] & Hu & Hcmp). exists mt.
      split; [|now apply exceeds_iff].
      apply file_under_walk in Hu. now destruct Hu as [[=]|Hu].
  - split; [discriminate|]. now intros (n & mt & [=] & _).
Qed.

Lemma recursive_mtime_max (root : node) (p : location) (n : node) :
  lookup_node root p = Some n ->
  (exists mt, file_under n mt) ->
  path_is_file root p = true \/ (forall mt, file_under n mt -> (0 <= mt)%Q) ->
  newest_under n (recursive_mtime root p true).
Proof.
  intros Hn [mt0 H0] Hcase.
  unfold recursive_mtime, path_is_file, mtime, os_walk_mtimes in *.
  rewrite Hn in *. destruct n as [mt|es].
  - split; [constructor|]. intros x Hx. inversion Hx; subst. lra.
  - destruct Hcase as [[=]|Hpos].
    destruct (fold_newest_max (walk_mtimes (Dir es))) as [Hr Hle].
    + apply file_under_walk in H0. destruct H0 as [[=]|H0].
      intros E. now rewrite E in H0.
    + intros x Hx. apply Hpos, file_under_walk. now right.
    + split.
      * apply file_under_walk. now right.
      * intros x Hx. apply Hle.
        apply file_under_walk in Hx. now destruct Hx as [[=]|Hx].
Qed.

(** For a path that is a single file, or a directory that holds at least one
    file and no file with a negative modification time, [recursive_mtime]
    returns the newest modification time under the path: the time of one of
    its files, and no file under it is newer. *)
Theorem recursive_mtime_newest (root : node) (p : location) (n : node) :
  lookup_node root p = Some n ->
  (exists mt, file_under n mt) ->
  path_is_file root p = true \/ (forall mt, file_under n mt -> (0 <= mt)%Q) ->
  newest_under n (recursive_mtime root p true).
Proof. apply recursive_mtime_max. Qed.

Lemma recursive_mtime_newest_witness :
  newest_under (Dir [("index.ts", File 10); ("widgets", Dir [("w.ts", File 25)])])
    (recursive_mtime edited_checkout ["src"] true).
Proof.
  apply (recursive_mtime_newest edited_checkout ["src"]).
  - reflexivity.
  - exists 10%Q. apply under_entry with "index.ts" (File 10);
      [now left | constructor].
  - right. intros mt H. each_file H; lra.
Defined.

(** For a path that does not exist, and for a directory with no file at any
    depth, [recursive_mtime] returns [-1.0], in both modes. *)
Theorem recursive_mtime_no_files (root : node) (p : location) (newest : bool) :
  lookup_node root p = None \/
    (exists es, lookup_node root p = Some (Dir es) /\
                forall mt, ~ file_under (Dir es) mt) ->
  recursive_mtime root p newest = (-1)%Q.
Proof.
  unfold recursive_mtime, path_is_file, os_walk_mtimes.
  intros [->|(es & -> & Hnone)]; [reflexivity|].
  destruct (walk_mtimes (Dir es)) as [|x l] eqn:E; [reflexivity|].
  exfalso. apply (Hnone x), file_under_walk. right. rewrite E. now left.
Qed.

Lemma recursive_mtime_no_files_witness :
  recursive_mtime built_checkout ["dist"] true = (-1)%Q /\
  recursive_mtime built_checkout [".git"] false = (-1)%Q.
Proof.
  split.
  - apply recursive_mtime_no_files. now left.
  - apply recursive_mtime_no_files. right. exists []. split; [reflexivity|].
    intros mt H. each_file H.
Defined.

Lemma truthy_nonzero (x : Q) : ~ (x == 0)%Q -> truthy x = true.
Proof.
  intros Hx. unfold truthy. apply negb_true_iff, not_true_iff_false.
  intros E. now apply Hx, Qeq_bool_eq.
Qed.

(** The accumulator of the oldest mode after the files [seen]: never above
    the initial [-1.0], below every file seen, and the initial value or one
    of them. *)
Lemma fold_oldest (mts seen : list Q) (cur : Q) :
  (cur <= -1)%Q -> (forall x, In x seen -> (cur <= x)%Q) ->
  cur = (-1)%Q \/ In cur seen ->
  let r := fold_left (extreme_step false) mts cur in
  (r <= -1)%Q /\ (forall x, In x (seen ++ mts) -> (r <= x)%Q) /\
  (r = (-1)%Q \/ In r (seen ++ mts)).
Proof.
  revert seen cur. induction mts as [|mt mts IH]; intros seen cur Hcur Hlow Hin.
  - cbn. rewrite app_nil_r. now repeat split.
  - cbn [fold_left].
    replace (seen ++ mt :: mts) with ((seen ++ [mt]) ++ mts)
      by now rewrite <- app_assoc.
    assert (Ht : truthy cur = true) by (apply truthy_nonzero; lra).
    assert (Hstep : extreme_step false cur mt
                    = if Qle_bool mt cur then mt else cur)
      by (unfold extreme_step, py_or; now rewrite Ht).
    rewrite Hstep. destruct (Qle_bool mt cur) eqn:Ele.
    + apply Qle_bool_iff in Ele. apply IH.
      * lra.
      * intros x [Hx|[<-|[]]]%in_app_iff; [|lra]. specialize (Hlow x Hx). lra.
      * right. apply in_app_iff. right. now left.
    + assert (Hlt : (cur < mt)%Q).
      { apply Qnot_le_lt. intros Hle. apply Qle_bool_iff in Hle. congruence. }
      apply IH.
      * exact Hcur.
      * intros x [Hx|[<-|[]]]%in_app_iff; [now apply Hlow | lra].
      * destruct Hin as [->|Hin]; [now left|]. right. apply in_app_iff.
        now left.
Qed.

(** In the oldest mode ([newest=False]) the walk of a directory starts from
    [-1.0] too, so the result is never above [-1.0]: it is below every file
    under the directory, and it is [-1.0] itself, not the oldest file, as
    soon as every file is newer than [-1.0]. *)
Theorem recursive_mtime_oldest
    (root : node) (p : location) (es : list (string * node)) :
  lookup_node root p = Some (Dir es) ->
  let r := recursive_mtime root p false in
  (r <= -1)%Q /\
  (forall mt, file_under (Dir es) mt -> (r <= mt)%Q) /\
  ((forall mt, file_under (Dir es) mt -> (-1 < mt)%Q) -> r = (-1)%Q).
Proof.
  intros Hp. unfold recursive_mtime, path_is_file, os_walk_mtimes.
  rewrite Hp.
  destruct (fold_oldest (walk_mtimes (Dir es)) [] (-1)%Q)
    as (Hr & Hlow & Hin); [lra | intros x [] | now left |].
  cbn [app] in *. repeat split.
  - exact Hr.
  - intros mt Hu. apply Hlow. apply file_under_walk in Hu.
    now destruct Hu as [[=]|Hu].
  - intros Hnew. destruct Hin as [Hin|Hin]; [exact Hin|].
    assert (Hu : file_under (Dir es)
                   (fold_left (extreme_step false) (walk_mtimes (Dir es))
                      (-1)%Q))
      by (apply file_under_walk; now right).
    apply Hnew in Hu. lra.
Qed.

Lemma recursive_mtime_oldest_witness :
  recursive_mtime built_checkout ["src"] false = (-1)%Q.
Proof.
  apply (recursive_mtime_oldest built_checkout ["src"]
           [("index.ts", File 10); ("widgets", Dir [("w.ts", File 12)])]
           eq_refl).
  intros mt H. each_file H; lra.
Defined.

Lemma lookup_node_app (n : node) (p q : location) :
  lookup_node n (p ++ q) =
  match lookup_node n p with
  | Some m => lookup_node m q
  | None => None
  end.
Proof.
  revert n. induction p as [|c p IH]; intros n; [reflexivity|].
  cbn. destruct n as [mt|es]; [reflexivity|].
  destruct (assoc c es); [apply IH | reflexivity].
Qed.

Lemma assoc_In (name : string) (es : list (string * node)) (n : node) :
  assoc name es = Some n -> In (name, n) es.
Proof.
  induction es as [|[k m] es IH]; cbn; [discriminate|].
  destruct (String.eqb k name) eqn:E.
  - apply String.eqb_eq in E as ->. intros [= ->]. now left.
  - intros H. right. now apply IH.
Qed.

Lemma file_under_lookup (n : node) (q : location) (mt : Q) :
  lookup_node n q = Some (File mt) -> file_under n mt.
Proof.
  revert n. induction q as [|c q IH]; intros n; cbn.
  - intros [= ->]. constructor.
  - destruct n as [m|es]; [discriminate|].
    destruct (assoc c es) as [child|] eqn:E; [|discriminate].
    intros Hq. apply under_entry with c child; [now apply assoc_In|].
    now apply IH.
Qed.

(** The walk reaches files at any depth: if a file somewhere below the source
    is strictly newer than the newest file under the target (a single file,
    or a tree without negative modification times), the target is stale. *)
Theorem is_stale_nested_file
    (root : node) (target source rel : location) (tn : node) (m mt : Q) :
  lookup_node root target = Some tn ->
  newest_under tn m ->
  path_is_file root target = true \/
    (forall x, file_under tn x -> (0 <= x)%Q) ->
  lookup_node root (source ++ rel) = Some (File mt) ->
  (m < mt)%Q ->
  is_stale root target source = true.
Proof.
  intros Ht Hm Hcase Hfile Hlt. rewrite lookup_node_app in Hfile.
  destruct (lookup_node root source) as [sn|] eqn:Hs; [|discriminate].
  rewrite (is_stale_unfold root target source tn sn Ht Hs).
  apply compare_recursive_mtime_newest. exists sn, mt.
  repeat split; [assumption | now apply file_under_lookup with rel|].
  pose proof (target_mtime_newest root target tn m Ht Hm Hcase). lra.
Qed.

Lemma is_stale_nested_file_witness :
  is_stale edited_checkout ["lib"] ["src"] = true.
Proof.
  apply (is_stale_nested_file edited_checkout ["lib"] ["src"]
           ["widgets"; "w.ts"] (Dir [("index.js", File 20)]) 20 25).
  - reflexivity.
  - exact newest_under_lib.
  - right. intros x H. each_file H. lra.
  - reflexivity.
  - lra.
Defined.

(** A source that exists and holds no file makes nothing stale: with an
    existing target, [is_stale] returns false. *)
Theorem is_stale_source_without_files
    (root : node) (target source : location) (sn : node) :
  lookup_node root source = Some sn ->
  (forall mt, ~ file_under sn mt) ->
  path_exists root target = true ->
  is_stale root target source = false.
Proof.
  intros Hs Hnone Ht. unfold path_exists in Ht.
  destruct (lookup_node root target) as [tn|] eqn:Htn; [|discriminate].
  rewrite (is_stale_unfold root target source tn sn Htn Hs).
  apply not_true_is_false.
  intros (n & mt & Hn & Hu & _)%compare_recursive_mtime_newest.
  rewrite Hs in Hn. injection Hn as <-. now apply (Hnone mt).
Qed.

Lemma is_stale_source_without_files_witness :
  is_stale built_checkout ["lib"] [".git"] = false.
Proof.
  apply (is_stale_source_without_files built_checkout ["lib"] [".git"]
           (Dir [])).
  - reflexivity.
  - intros mt H. each_file H.
  - reflexivity.
Defined.

(** Nothing is stale with respect to itself: for an existing path that is a
    single file, or a tree without negative modification times,
    [is_stale(p, p)] is false. *)
Theorem is_stale_self (root : node) (p : location) (n : node) :
  lookup_node root p = Some n ->
  path_is_file root p = true \/ (forall mt, file_under n mt -> (0 <= mt)%Q) ->
  is_stale root p p = false.
Proof.
  intros Hp Hcase. rewrite (is_stale_unfold root p p n n Hp Hp).
  apply not_true_is_false.
  intros (n' & mt & Hn & Hu & Hlt)%compare_recursive_mtime_newest.
  rewrite Hp in Hn. injection Hn as <-.
  pose proof (recursive_mtime_max root p n Hp (ex_intro _ mt Hu) Hcase)
    as Hnewest.
  pose proof (target_mtime_newest root p n _ Hp Hnewest Hcase) as Hcut.
  destruct Hnewest as [_ Hmax]. specialize (Hmax mt Hu). lra.
Qed.

Lemma is_stale_self_witness :
  is_stale edited_checkout ["src"] ["src"] = false.
Proof.
  apply (is_stale_self edited_checkout ["src"]
           (Dir [("index.ts", File 10); ("widgets", Dir [("w.ts", File 25)])])).
  - reflexivity.
  - right. intros mt H. each_file H; lra.
Defined.

(** * Further properties of [normalize_cmd], [run] and [ensure_targets] *)

(** When [normalize_cmd] returns, the command had a first token and only that
    token can differ in the result: it is kept if it is an absolute path, and
    otherwise replaced by the non-empty path that [which] found; the
    arguments after it are returned as they were. *)
Theorem normalize_cmd_ok (h : Host) (cmd : command) (w w' : World)
    (l : list string) :
  normalize_cmd h cmd w = (Ok l, w') ->
  exists cmd0 args,
    split_cmd h cmd = inr (cmd0 :: args) /\
    w' = w /\
    ((is_absolute h cmd0 = true /\ l = cmd0 :: args) \/
     (is_absolute h cmd0 = false /\
      exists found, which h (root w) cmd0 = Some found /\
                    found <> EmptyString /\ l = found :: args)).
Proof.
  intros Hrun.
  destruct (split_cmd h cmd) as [msg|[|cmd0 args]] eqn:Hsplit.
  - unfold normalize_cmd, bind, raise in Hrun. now rewrite Hsplit in Hrun.
  - unfold normalize_cmd, bind, raise, ret in Hrun. now rewrite Hsplit in Hrun.
  - rewrite (normalize_cmd_tokens h cmd w cmd0 args Hsplit) in Hrun.
    exists cmd0, args. split; [reflexivity|].
    destruct (is_absolute h cmd0).
    + injection Hrun as <- <-. split; [reflexivity|]. now left.
    + destruct (which h (root w) cmd0) as [found|] eqn:Hwhich;
        cbn [str_truthy] in Hrun; [|discriminate].
      destruct (String.eqb found EmptyString) eqn:Eempty;
        cbn [negb] in Hrun; [discriminate|].
      injection Hrun as <- <-. split; [reflexivity|]. right.
      split; [reflexivity|]. exists found. repeat split.
      now apply String.eqb_neq.
Qed.

Lemma normalize_cmd_ok_witness :
  exists cmd0 args,
    split_cmd (posix_host 0) (CmdStr "npm run build:prod")
    = inr (cmd0 :: args) /\
    args = ["run"; "build:prod"].
Proof.
  destruct (normalize_cmd_ok (posix_host 0) (CmdStr "npm run build:prod")
              (world_of built_checkout [] no_env)
              (world_of built_checkout [] no_env)
              ["/usr/bin/npm"; "run"; "build:prod"] eq_refl)
    as (cmd0 & args & Hsplit & _ & _).
  exists cmd0, args. split; [exact Hsplit|].
  now injection Hsplit as _ <-.
Defined.

(** [normalize_cmd] is idempotent once the executable is an absolute path:
    normalizing its own result again returns that result, without a search. *)
Theorem normalize_cmd_idempotent (h : Host) (cmd : command) (w w' : World)
    (l : list string) :
  normalize_cmd h cmd w = (Ok l, w') ->
  is_absolute h (hd EmptyString l) = true ->
  normalize_cmd h (CmdList l) w = (Ok l, w).
Proof.
  intros Hrun Habs.
  assert (Hne : exists l0 ls, l = l0 :: ls).
  { unfold normalize_cmd, bind, gets, ret, raise in Hrun.
    destruct (split_cmd h cmd) as [msg|[|cmd0 args]]; try discriminate.
    destruct (is_absolute h cmd0); cbn [negb] in Hrun.
    - injection Hrun as <- _. now exists cmd0, args.
    - destruct (str_truthy (which h (root w) cmd0)); cbn [negb] in Hrun;
        [|discriminate].
      injection Hrun as <- _. now eexists _, _. }
  destruct Hne as (l0 & ls & ->). cbn [hd] in Habs.
  now rewrite (normalize_cmd_tokens h (CmdList (l0 :: ls)) w l0 ls eq_refl),
    Habs.
Qed.

Lemma normalize_cmd_idempotent_witness :
  normalize_cmd (posix_host 0) (CmdList ["/usr/bin/npm"; "install"])
    (world_of built_checkout [] no_env)
  = (Ok ["/usr/bin/npm"; "install"], world_of built_checkout [] no_env).
Proof.
  apply (normalize_cmd_idempotent (posix_host 0) (CmdStr "npm install")
           (world_of built_checkout [] no_env)
           (world_of built_checkout [] no_env)); reflexivity.
Defined.

Lemma normalize_cmd_result (h : Host) (cmd : command) (w w' : World)
    (r : result (list string)) :
  normalize_cmd h cmd w = (r, w') -> w' = w.
Proof. intros E. now rewrite <- (normalize_cmd_world h cmd w), E. Qed.



(** [ensure_targets] reports the first path of the list that does not exist:
    if every path before [t] exists and [t] does not, the error names [t],
    whatever follows it in the list. *)
Theorem ensure_targets_first_missing (h : Host) (before after : list string)
    (t : string) (w : World) :
  (forall p, In p before -> path_exists (root w) (locate h p) = true) ->
  path_exists (root w) (locate h t) = false ->
  ensure_targets h (before ++ t :: after) w
  = (Raise (ValueError (missing_target_message t)), w).
Proof.
  intros Hbefore Hmissing.
  induction before as [|p before IH]; cbn [app ensure_targets];
    unfold bind, gets.
  - now rewrite Hmissing.
  - rewrite (Hbefore p (or_introl eq_refl)). cbn [negb].
    apply IH. intros p' Hp'. apply Hbefore. now right.
Qed.

Lemma ensure_targets_first_missing_witness :
  ensure_targets (posix_host 0)
    ["lib/index.js"; "lib/a.map"; "lib/b.map"]
    (world_of built_checkout [] no_env)
  = (Raise (ValueError (missing_target_message "lib/a.map")),
     world_of built_checkout [] no_env).
Proof.
  apply (ensure_targets_first_missing (posix_host 0) ["lib/index.js"]
           ["lib/b.map"] "lib/a.map").
  - intros p [<-|[]]. reflexivity.
  - reflexivity.
Defined.

(** * Further properties of [npm_builder] *)

(** ** What a call can change *)

Lemma extends_by_refl (w : World) : extends_by w w [].
Proof. unfold extends_by. now rewrite app_nil_r. Qed.

Lemma extends_by_trans (w w1 w2 : World)
    (m1 m2 : list (list string * location)) :
  extends_by w w1 m1 -> extends_by w1 w2 m2 -> extends_by w w2 (m1 ++ m2).
Proof.
  intros (He1 & Ha1 & Hs1 & Hr1) (He2 & Ha2 & Hs2 & Hr2).
  unfold extends_by. rewrite He2, He1, Ha2, Ha1, Hs2, Hs1, app_assoc.
  repeat split.
  intros [-> ->]%app_eq_nil. now rewrite Hr2, Hr1.
Qed.

Lemma extends_by_log (w : World) (lvl : level) (msg : string) :
  extends_by w (with_trace w (trace w ++ [Log lvl msg])) [].
Proof.
  unfold extends_by, with_trace. cbn [environ argv trace root].
  rewrite spawned_app. cbn. now rewrite !app_nil_r.
Qed.

Lemma run_extends (h : Host) (cmd : command) (cwd : location)
    (w w' : World) (r : result Z) :
  run h cmd cwd w = (r, w') ->
  exists more,
    extends_by w w' more /\ (length more <= 1)%nat /\
    forall c, In c more -> snd c = cwd.
Proof.
  intros Hrun.
  destruct (normalize_cmd h cmd w) as [[cmd'|e] w0] eqn:Hnorm;
    pose proof (normalize_cmd_result h cmd w w0 _ Hnorm) as ->.
  - rewrite (run_normalized h cmd cwd w cmd' Hnorm) in Hrun.
    injection Hrun as <- <-. exists [(cmd', cwd)]. repeat split.
    + unfold after_call. cbn [trace]. rewrite !spawned_app. cbn.
      now rewrite !app_nil_r.
    + discriminate.
    + cbn. lia.
    + now intros c [<-|[]].
  - unfold run, bind at 1 in Hrun. rewrite Hnorm in Hrun.
    injection Hrun as <- <-. exists []. split; [apply extends_by_refl|].
    split; [cbn; lia | intros c []].
Qed.

Lemma should_build_world (h : Host) (a : Args) (w : World) :
  exists b, should_build h a w = (Ok b, w).
Proof.
  unfold should_build, gets, ret.
  destruct (_ && _ && _); eexists; reflexivity.
Qed.

Lemma build_extends (h : Host) (a : Args) (abs_path : location)
    (bc : option string) (npm_cmd : list string) (w w' : World)
    (r : result unit) :
  build h a abs_path bc npm_cmd w = (r, w') ->
  exists more,
    extends_by w w' more /\ (length more <= 2)%nat /\
    forall c, In c more -> snd c = abs_path.
Proof.
  unfold build, bind at 1.
  destruct (should_build_world h a w) as [[|] ->].
  2:{ intros [= <- <-]. exists []. split; [apply extends_by_refl|].
      split; [cbn; lia | intros c []]. }
  unfold bind at 1, log_info, emit.
  change {| root := root w; environ := environ w; argv := argv w;
            trace := trace w ++ [Log INFO
              "Installing build dependencies with npm.  This may take a while..."] |}
    with (with_trace w (trace w ++ [install_log])).
  pose proof (extends_by_log w INFO
    "Installing build dependencies with npm.  This may take a while...")
    as Hlog. fold install_log in Hlog.
  set (w1 := with_trace w (trace w ++ [install_log])) in *.
  unfold bind at 1.
  destruct (run h (CmdList (npm_cmd ++ ["install"])) abs_path w1)
    as [[z|e] w2] eqn:Hrun1;
    destruct (run_extends h _ abs_path w1 w2 _ Hrun1)
      as (m1 & Hext1 & Hlen1 & Hcwd1).
  2:{ intros [= <- <-]. exists m1. split.
      - apply (extends_by_trans w w1 w2 [] m1 Hlog Hext1).
      - split; [lia | exact Hcwd1]. }
  destruct (str_truthy bc).
  2:{ intros [= <- <-]. exists m1. split.
      - apply (extends_by_trans w w1 w2 [] m1 Hlog Hext1).
      - split; [lia | exact Hcwd1]. }
  unfold bind at 1.
  destruct (run h (CmdList (npm_cmd ++ ["run"; default EmptyString bc]))
              abs_path w2) as [[z2|e2] w3] eqn:Hrun2;
    destruct (run_extends h _ abs_path w2 w3 _ Hrun2)
      as (m2 & Hext2 & Hlen2 & Hcwd2);
    intros [= <- <-]; exists (m1 ++ m2).
  all: split;
    [ apply (extends_by_trans w w1 w3 [] (m1 ++ m2) Hlog);
      apply (extends_by_trans w1 w2 w3 m1 m2 Hext1 Hext2)
    | split;
      [ rewrite length_app; lia
      | intros c [Hc|Hc]%in_app_iff; [now apply Hcwd1 | now apply Hcwd2] ] ].
Qed.

Lemma default_npm_extends (h : Host) (abs_path : location) (w : World) :
  extends_by w (snd (default_npm h abs_path w)) [].
Proof.
  rewrite default_npm_spec. cbn [snd].
  destruct (_ && negb _); [apply extends_by_log | apply extends_by_refl].
Qed.

Lemma tool_command_extends (h : Host) (a : Args) (abs_path : location)
    (w w' : World) (r : result (list string)) :
  tool_command h a abs_path w = (r, w') -> extends_by w w' [].
Proof.
  unfold tool_command.
  destruct (npm a) as [[s|l]|].
  - unfold bind, ret. intros ->%normalize_cmd_result. apply extends_by_refl.
  - unfold bind, ret. intros ->%normalize_cmd_result. apply extends_by_refl.
  - unfold bind at 1 2. pose proof (default_npm_extends h abs_path w) as Hd.
    rewrite default_npm_spec in *. cbn [snd] in Hd. unfold ret at 1.
    now intros ->%normalize_cmd_result.
Qed.

(** Everything a call can do to the world, on every path through it. *)
Lemma npm_builder_effects (h : Host) (a : Args) (w w' : World)
    (r : result unit) :
  npm_builder h a w = (r, w') ->
  environ w' = environ w /\
  argv w' = default (argv w) (list_remove skip_flag (argv w)) /\
  exists more,
    spawned (trace w') = spawned (trace w) ++ more /\
    (length more <= 2)%nat /\
    (forall c, In c more -> snd c = locate h (path a)) /\
    (more = [] -> root w' = root w).
Proof.
  destruct (skip_signal w || implicit_skip h a w) eqn:Hskip.
  - rewrite (npm_builder_skips h a w Hskip), skip_requested_spec.
    cbn [snd]. intros [= <- <-].
    destruct (skip_signal w) eqn:Hsig;
      cbn [with_trace environ argv trace root].
    + repeat split. exists []. rewrite !spawned_app. cbn.
      rewrite !app_nil_r. repeat split; [cbn; lia | intros c []].
    + assert (Habsent : list_remove skip_flag (argv w) = None).
      { apply list_remove_absent. rewrite <- py_in_In.
        unfold skip_signal in Hsig. apply orb_false_iff in Hsig as [-> _].
        discriminate. }
      rewrite Habsent. repeat split. exists []. rewrite !spawned_app. cbn.
      rewrite !app_nil_r. repeat split; [cbn; lia | intros c []].
  - apply orb_false_iff in Hskip as [Hsig Himp].
    assert (Habsent : list_remove skip_flag (argv w) = None).
    { apply list_remove_absent. rewrite <- py_in_In.
      unfold skip_signal in Hsig. apply orb_false_iff in Hsig as [-> _].
      discriminate. }
    rewrite Habsent. cbn [default].
    rewrite (npm_builder_proceeds h a w Hsig Himp). unfold bind at 1.
    destruct (tool_command h a (locate h (path a)) w) as [[npm_cmd|e] w1]
      eqn:Htool;
      destruct (tool_command_extends h a _ w w1 _ Htool)
        as (He1 & Ha1 & Hs1 & Hr1).
    + intros Hbuild.
      destruct (build_extends h a _ _ npm_cmd w1 w' r Hbuild)
        as (more & (He2 & Ha2 & Hs2 & Hr2) & Hlen & Hcwd).
      rewrite He2, He1, Ha2, Ha1. repeat split.
      exists more. rewrite Hs2, Hs1, app_nil_r. repeat split; try assumption.
      intros Hnil. now rewrite (Hr2 Hnil), Hr1.
    + intros [= <- <-]. repeat split; try assumption.
      exists []. rewrite Hs1. repeat split; [cbn; lia | intros c [] |].
      intros _. now apply Hr1.
Qed.

(** Whatever its arguments and whatever happens, a call of [npm_builder]
    starts at most two child processes, each with the base path as working
    directory; and if it starts none, the file system is as it was. *)
Theorem npm_builder_at_most_two (h : Host) (a : Args) (w : World) :
  exists more,
    spawned (trace (snd (npm_builder h a w))) = spawned (trace w) ++ more /\
    (length more <= 2)%nat /\
    (forall c, In c more -> snd c = locate h (path a)) /\
    (more = [] -> root (snd (npm_builder h a w)) = root w).
Proof.
  destruct (npm_builder h a w) as [r w'] eqn:Hrun.
  now destruct (npm_builder_effects h a w w' r Hrun) as (_ & _ & Hmore).
Qed.

Lemma list_remove_count (x : string) (l : list string) :
  count_occ String.string_dec (default l (list_remove x l)) x
  = (count_occ String.string_dec l x - 1)%nat.
Proof.
  induction l as [|y l IH]; cbn [list_remove]; [reflexivity|].
  destruct (String.eqb y x) eqn:E.
  - apply String.eqb_eq in E as ->. cbn.
    destruct (String.string_dec x x); [lia | contradiction].
  - apply String.eqb_neq in E.
    destruct (list_remove x l) as [l'|]; cbn in *;
      destruct (String.string_dec y x); try contradiction; exact IH.
Qed.

Lemma list_remove_others (x : string) (l : list string) :
  List.filter (fun y => negb (String.eqb y x)) (default l (list_remove x l))
  = List.filter (fun y => negb (String.eqb y x)) l.
Proof.
  induction l as [|y l IH]; cbn [list_remove]; [reflexivity|].
  destruct (String.eqb y x) eqn:E.
  - cbn. now rewrite E.
  - destruct (list_remove x l) as [l'|]; cbn in *; rewrite E; cbn;
      now rewrite ?IH.
Qed.

(** Whatever its arguments and whatever happens, a call of [npm_builder]
    leaves the environment as it was and takes at most one [--skip-npm] out
    of the argument list: the flag occurs once less than before (not at all,
    if it did not occur), and the other arguments are the same, in the same
    order. *)
Theorem npm_builder_arguments (h : Host) (a : Args) (w : World) :
  environ (snd (npm_builder h a w)) = environ w /\
  count_occ String.string_dec (argv (snd (npm_builder h a w))) skip_flag
  = (count_occ String.string_dec (argv w) skip_flag - 1)%nat /\
  List.filter other_arg (argv (snd (npm_builder h a w)))
  = List.filter other_arg (argv w).
Proof.
  destruct (npm_builder h a w) as [r w'] eqn:Hrun.
  destruct (npm_builder_effects h a w w' r Hrun) as (Henv & Hargv & _).
  cbn [snd]. rewrite Hargv. split; [exact Henv|]. split.
  - apply list_remove_count.
  - apply list_remove_others.
Qed.

(** ** A build that goes ahead *)

Section going_ahead.
Variable h : Host.
Variable a : Args.
Variables w w1 : World.
Variable npm_cmd : list string.

(** The call is not skipped, *)
Hypothesis Hsignal : skip_signal w = false.
Hypothesis Himplicit : implicit_skip h a w = false.
(** its tool resolves, to a command that [run] can resolve, *)
Hypothesis Htool : tool_command h a (locate h (path a)) w = (Ok npm_cmd, w1).
Hypothesis Hresolvable : resolvable h (root w) npm_cmd = true.
(** and the build is needed. *)
Hypothesis Hneeded :
  force a = true \/ str_truthy (build_dir a) = false \/
  str_truthy (source_dir a) = false \/ stale_dirs h a (root w) = true.

Local Abbreviation abs_path := (locate h (path a)).
Local Abbreviation install := (normalized h (root w) (install_cmd npm_cmd)).
Local Abbreviation w2 :=
  (after_call h install abs_path (with_trace w1 (trace w1 ++ [install_log]))).

Lemma going_ahead_unfold :
  npm_builder h a w =
  if Z.eqb (exit_code h install abs_path (root w)) 0 then
    if str_truthy (effective_build_cmd a)
    then bind (run h (CmdList (run_cmd npm_cmd (effective_build_cmd a)))
                 abs_path) (fun _ => ret tt) w2
    else (Ok tt, w2)
  else (Raise (CalledProcessError (exit_code h install abs_path (root w))
                 install), w2).
Proof using Hsignal Himplicit Htool Hresolvable Hneeded.
  destruct (tool_command_frame h a _ w w1 _ Htool) as [Hroot _].
  rewrite (npm_builder_proceeds h a w Hsignal Himplicit). unfold bind at 1.
  rewrite Htool. fold (effective_build_cmd a).
  rewrite <- Hroot in Hneeded, Hresolvable.
  rewrite (build_needed h a (locate h (path a)) (effective_build_cmd a)
             npm_cmd w1 Hneeded Hresolvable).
  unfold w2, install, abs_path. now rewrite Hroot.
Qed.

Lemma going_ahead_spawned :
  spawned (trace w2) = spawned (trace w) ++ [(install, abs_path)].
Proof using Htool.
  destruct (tool_command_frame h a _ w w1 _ Htool) as [_ Hspawn].
  unfold w2, after_call, with_trace. cbn [trace].
  rewrite !spawned_app, Hspawn. cbn. now rewrite !app_nil_r.
Qed.

(** If the install command exits with a code other than 0, the call raises
    [CalledProcessError] with that code and the install command, and the
    build command is never started. *)
Theorem npm_builder_install_fails :
  exit_code h install abs_path (root w) <> 0%Z ->
  fst (npm_builder h a w)
  = Raise (CalledProcessError (exit_code h install abs_path (root w)) install)
  /\
  spawned (trace (snd (npm_builder h a w)))
  = spawned (trace w) ++ [(install, abs_path)].
Proof using Hsignal Himplicit Htool Hresolvable Hneeded.
  intros Hcode. rewrite going_ahead_unfold.
  apply Z.eqb_neq in Hcode. rewrite Hcode. cbn [fst snd].
  split; [reflexivity | apply going_ahead_spawned].
Qed.

(** Without a build command in effect ([None] or the empty string), the call
    returns normally once the install command has exited with 0, and has
    started nothing else. *)
Theorem npm_builder_install_only :
  exit_code h install abs_path (root w) = 0%Z ->
  str_truthy (effective_build_cmd a) = false ->
  fst (npm_builder h a w) = Ok tt /\
  spawned (trace (snd (npm_builder h a w)))
  = spawned (trace w) ++ [(install, abs_path)].
Proof using Hsignal Himplicit Htool Hresolvable Hneeded.
  intros Hcode Hbc. rewrite going_ahead_unfold, Hcode, Hbc. cbn [Z.eqb fst snd].
  split; [reflexivity | apply going_ahead_spawned].
Qed.

Lemma going_ahead_both :
  exit_code h install abs_path (root w) = 0%Z ->
  str_truthy (effective_build_cmd a) = true ->
  let fs2 := files_after h install abs_path (root w) in
  resolvable h fs2 npm_cmd = true ->
  let build_it := normalized h fs2 (run_cmd npm_cmd (effective_build_cmd a)) in
  fst (npm_builder h a w)
  = (if Z.eqb (exit_code h build_it abs_path fs2) 0 then Ok tt
     else Raise (CalledProcessError (exit_code h build_it abs_path fs2)
                   build_it)) /\
  spawned (trace (snd (npm_builder h a w)))
  = spawned (trace w) ++ [(install, abs_path); (build_it, abs_path)].
Proof using Hsignal Himplicit Htool Hresolvable Hneeded.
  intros Hcode Hbc fs2 Hres2 build_it.
  rewrite going_ahead_unfold, Hcode, Hbc. cbn [Z.eqb].
  destruct (tool_command_frame h a _ w w1 _ Htool) as [Hroot _].
  assert (Hfs2 : root w2 = fs2).
  { unfold w2, after_call, fs2, files_after, install, abs_path.
    cbn [root with_trace]. now rewrite Hroot. }
  assert (Hnorm : normalize_cmd h
                    (CmdList (run_cmd npm_cmd (effective_build_cmd a))) w2
                  = (Ok build_it, w2)).
  { unfold build_it. rewrite <- Hfs2.
    apply (normalize_cmd_resolvable h
             (run_cmd npm_cmd (effective_build_cmd a)) w2).
    rewrite Hfs2. now apply resolvable_app. }
  assert (Hboth :
    bind (run h (CmdList (run_cmd npm_cmd (effective_build_cmd a))) abs_path)
      (fun _ => ret tt) w2
    = (if Z.eqb (exit_code h build_it abs_path fs2) 0 then Ok tt
       else Raise (CalledProcessError (exit_code h build_it abs_path fs2)
                     build_it),
       after_call h build_it abs_path w2)).
  { unfold bind at 1.
    rewrite (run_normalized h _ abs_path w2 build_it Hnorm), Hfs2.
    now destruct (Z.eqb (exit_code h build_it abs_path fs2) 0). }
  rewrite Hboth. cbn [fst snd]. split; [reflexivity|].
  unfold after_call at 1. cbn [trace].
  rewrite !spawned_app, going_ahead_spawned. cbn.
  now rewrite !app_nil_r, <- app_assoc.
Qed.

(** With a build command in effect, after an install that exited with 0 and
    left the tool resolvable, the call starts the build command as its second
    and last child process; it returns normally if that one exits with 0 and
    raises [CalledProcessError] with its code and command otherwise. *)
Theorem npm_builder_install_then_build :
  exit_code h install abs_path (root w) = 0%Z ->
  str_truthy (effective_build_cmd a) = true ->
  let fs2 := files_after h install abs_path (root w) in
  resolvable h fs2 npm_cmd = true ->
  let build_it := normalized h fs2 (run_cmd npm_cmd (effective_build_cmd a)) in
  fst (npm_builder h a w)
  = (if Z.eqb (exit_code h build_it abs_path fs2) 0 then Ok tt
     else Raise (CalledProcessError (exit_code h build_it abs_path fs2)
                   build_it)) /\
  spawned (trace (snd (npm_builder h a w)))
  = spawned (trace w) ++ [(install, abs_path); (build_it, abs_path)].
Proof using Hsignal Himplicit Htool Hresolvable Hneeded.
  exact going_ahead_both.
Qed.

(** Which build command runs: in an ["editable"] build with a non-empty
    [editable_build_cmd], the second child process is [<tool> run] with that
    command; in any other version it is [<tool> run] with [build_cmd],
    whatever [editable_build_cmd] says. *)
Theorem npm_builder_editable (e : string) :
  exit_code h install abs_path (root w) = 0%Z ->
  let fs2 := files_after h install abs_path (root w) in
  resolvable h fs2 npm_cmd = true ->
  e <> EmptyString ->
  (version a = "editable" /\ editable_build_cmd a = Some e) \/
  (version a <> "editable" /\ build_cmd a = Some e) ->
  spawned (trace (snd (npm_builder h a w)))
  = spawned (trace w)
    ++ [(install, abs_path);
        (normalized h fs2 (npm_cmd ++ ["run"; e]), abs_path)].
Proof using Hsignal Himplicit Htool Hresolvable Hneeded.
  intros Hcode fs2 Hres2 He Hcase.
  assert (Hbc : effective_build_cmd a = Some e).
  { unfold effective_build_cmd, str_or.
    destruct Hcase as [[-> He2]|[Hv Hb]].
    - rewrite He2. cbn. apply String.eqb_neq in He. now rewrite He.
    - apply String.eqb_neq in Hv. now rewrite Hv. }
  destruct going_ahead_both as [_ Hsp]; try assumption.
  - rewrite Hbc. cbn. apply String.eqb_neq in He. now rewrite He.
  - rewrite Hsp, Hbc. reflexivity.
Qed.

End going_ahead.

Lemma npm_builder_install_fails_witness :
  fst (npm_builder (posix_host 1) (wheel_args None None false)
         (world_of built_checkout ["hatch"] no_env))
  = Raise (CalledProcessError 1 ["/usr/bin/npm"; "install"]).
Proof.
  destruct (npm_builder_install_fails (posix_host 1)
              (wheel_args None None false)
              (world_of built_checkout ["hatch"] no_env)
              (world_of built_checkout ["hatch"] no_env) ["/usr/bin/npm"])
    as [Hresult _]; [reflexivity..|right; now left|discriminate|].
  exact Hresult.
Defined.

Lemma npm_builder_install_only_witness :
  spawned (trace (snd (npm_builder (posix_host 0)
                         (sdist_args "standard" None None)
                         (world_of unpacked_sdist ["hatch"] no_env))))
  = [(["/usr/bin/npm"; "install"], [])].
Proof.
  destruct (npm_builder_install_only (posix_host 0)
              (sdist_args "standard" None None)
              (world_of unpacked_sdist ["hatch"] no_env)
              (with_trace (world_of unpacked_sdist ["hatch"] no_env)
                 [yarn_warning])
              ["/usr/bin/npm"])
    as [_ Hspawned]; [reflexivity..|right; now left|reflexivity|reflexivity|].
  exact Hspawned.
Defined.

Lemma npm_builder_install_then_build_witness :
  fst (npm_builder (posix_host 0) (wheel_args None None false)
         (world_of built_checkout ["hatch"] no_env))
  = Ok tt.
Proof.
  destruct (npm_builder_install_then_build (posix_host 0)
              (wheel_args None None false)
              (world_of built_checkout ["hatch"] no_env)
              (world_of built_checkout ["hatch"] no_env) ["/usr/bin/npm"])
    as [Hresult _];
    [reflexivity..|right; now left|reflexivity|reflexivity|reflexivity|].
  exact Hresult.
Defined.

Lemma npm_builder_editable_witness :
  spawned (trace (snd (npm_builder (posix_host 0)
                         (sdist_args "editable" (Some "build")
                            (Some "build:dev"))
                         (world_of built_checkout ["hatch"] no_env))))
  = [(["/usr/bin/npm"; "install"], []);
     (["/usr/bin/npm"; "run"; "build:dev"], [])].
Proof.
  apply (npm_builder_editable (posix_host 0)
           (sdist_args "editable" (Some "build") (Some "build:dev"))
           (world_of built_checkout ["hatch"] no_env)
           (world_of built_checkout ["hatch"] no_env) ["/usr/bin/npm"]);
    try reflexivity.
  - right. now left.
  - discriminate.
  - left. now split.
Defined.

(** With [force=True] and no skip signal, a call whose tool resolves always
    starts the install command: neither the target, nor a missing [.git],
    nor a build directory that is up to date holds it back. *)
Theorem npm_builder_forced (h : Host) (a : Args) (w w1 : World)
    (npm_cmd : list string) :
  force a = true ->
  skip_signal w = false ->
  tool_command h a (locate h (path a)) w = (Ok npm_cmd, w1) ->
  resolvable h (root w) npm_cmd = true ->
  exists more,
    spawned (trace (snd (npm_builder h a w))) =
    spawned (trace w)
    ++ (normalized h (root w) (install_cmd npm_cmd), locate h (path a))
       :: more.
Proof.
  intros Hforce Hsig Htool Hres.
  assert (Himp : implicit_skip h a w = false).
  { unfold implicit_skip. rewrite Hforce. apply andb_false_r. }
  destruct (tool_command_frame h a _ w w1 _ Htool) as [Hroot Hspawn].
  rewrite (npm_builder_proceeds h a w Hsig Himp). unfold bind at 1.
  rewrite Htool. rewrite <- Hroot in Hres.
  destruct (build_invokes h a (locate h (path a))
              (if String.eqb (version a) "editable"
               then str_or (editable_build_cmd a) (build_cmd a)
               else build_cmd a) npm_cmd w1 (or_introl Hforce) Hres)
    as [more Hmore].
  exists more. now rewrite Hmore, Hspawn, Hroot.
Qed.

Lemma npm_builder_forced_witness :
  exists more,
    spawned (trace (snd (npm_builder (posix_host 0)
                           (wheel_args (Some "lib") (Some "src") true)
                           (world_of unpacked_sdist ["hatch"] no_env))))
    = (["/usr/bin/npm"; "install"], []) :: more.
Proof.
  apply (npm_builder_forced (posix_host 0)
           (wheel_args (Some "lib") (Some "src") true)
           (world_of unpacked_sdist ["hatch"] no_env)
           (with_trace (world_of unpacked_sdist ["hatch"] no_env)
              [yarn_warning])
           ["/usr/bin/npm"]); reflexivity.
Defined.

(** A target other than ["wheel"] is never skipped for want of a [.git]:
    without a skip signal, if the tool resolves and the build is needed, the
    install command is started, in a checkout or not. *)
Theorem npm_builder_not_wheel (h : Host) (a : Args) (w w1 : World)
    (npm_cmd : list string) :
  target_name a <> "wheel" ->
  skip_signal w = false ->
  tool_command h a (locate h (path a)) w = (Ok npm_cmd, w1) ->
  resolvable h (root w) npm_cmd = true ->
  force a = true \/ str_truthy (build_dir a) = false \/
    str_truthy (source_dir a) = false \/ stale_dirs h a (root w) = true ->
  exists more,
    spawned (trace (snd (npm_builder h a w))) =
    spawned (trace w)
    ++ (normalized h (root w) (install_cmd npm_cmd), locate h (path a))
       :: more.
Proof.
  intros Htarget Hsig Htool Hres Hneed.
  assert (Himp : implicit_skip h a w = false).
  { unfold implicit_skip. apply String.eqb_neq in Htarget.
    now rewrite Htarget. }
  destruct (tool_command_frame h a _ w w1 _ Htool) as [Hroot Hspawn].
  rewrite (npm_builder_proceeds h a w Hsig Himp). unfold bind at 1.
  rewrite Htool. rewrite <- Hroot in Hres, Hneed.
  destruct (build_invokes h a (locate h (path a))
              (if String.eqb (version a) "editable"
               then str_or (editable_build_cmd a) (build_cmd a)
               else build_cmd a) npm_cmd w1 Hneed Hres)
    as [more Hmore].
  exists more. now rewrite Hmore, Hspawn, Hroot.
Qed.

Lemma npm_builder_not_wheel_witness :
  exists more,
    spawned (trace (snd (npm_builder (posix_host 0)
                           (sdist_args "standard" (Some "build") None)
                           (world_of unpacked_sdist ["hatch"] no_env))))
    = (["/usr/bin/npm"; "install"], []) :: more.
Proof.
  apply (npm_builder_not_wheel (posix_host 0)
           (sdist_args "standard" (Some "build") None)
           (world_of unpacked_sdist ["hatch"] no_env)
           (with_trace (world_of unpacked_sdist ["hatch"] no_env)
              [yarn_warning])
           ["/usr/bin/npm"]); try reflexivity.
  - discriminate.
  - right. now left.
Defined.

(** An explicit tool given as a string is one token, not split: it is kept
    if it is an absolute path, replaced by what [which] finds for the whole
    string otherwise, and the [ValueError] of a failed search names the whole
    string.  The lock file is not consulted and nothing is logged. *)
Theorem tool_command_override (h : Host) (a : Args) (abs_path : location)
    (w : World) (s : string) :
  npm a = Some (CmdStr s) ->
  tool_command h a abs_path w =
  (if is_absolute h s then Ok [s]
   else if str_truthy (which h (root w) s)
        then Ok [default EmptyString (which h (root w) s)]
        else Raise (ValueError (not_found_message s)),
   w).
Proof.
  intros Hnpm. unfold tool_command. rewrite Hnpm. unfold bind at 1, ret at 1.
  rewrite (normalize_cmd_tokens h (CmdList [s]) w s [] eq_refl).
  destruct (is_absolute h s); [reflexivity|].
  now destruct (str_truthy (which h (root w) s)).
Qed.

Lemma tool_command_override_witness :
  tool_command (posix_host 0) (with_npm (CmdStr "npm --silent")) []
    (world_of unpacked_sdist [] no_env)
  = (Raise (ValueError (not_found_message "npm --silent")),
     world_of unpacked_sdist [] no_env).
Proof.
  apply (tool_command_override (posix_host 0)
           (with_npm (CmdStr "npm --silent")) []
           (world_of unpacked_sdist [] no_env) "npm --silent" eq_refl).
Defined.

(** * [normalize_kwargs] *)

Section dictionaries.
Context {V : Type}.
Implicit Types (d : dict V) (k x : string) (v : V).

Lemma dict_get_keys k d : In k (keys d) <-> exists v, dict_get k d = Some v.
Proof.
  induction d as [|[k' v'] d IH]; cbn.
  - split; [intros [] | now intros [v [=]]].
  - destruct (String.eqb k' k) eqn:E.
    + apply String.eqb_eq in E. split; [now exists v' | now left].
    + apply String.eqb_neq in E. rewrite <- IH. tauto.
Qed.

Lemma dict_get_absent k d : ~ In k (keys d) -> dict_get k d = None.
Proof.
  intros Hnot. destruct (dict_get k d) as [v|] eqn:E; [|reflexivity].
  exfalso. apply Hnot, dict_get_keys. now exists v.
Qed.

Lemma dict_get_set k v x d :
  dict_get x (dict_set k v d) = if String.eqb k x then Some v else dict_get x d.
Proof.
  induction d as [|[k' v'] d IH]; cbn.
  - reflexivity.
  - destruct (String.eqb k' k) eqn:E; cbn.
    + apply String.eqb_eq in E as ->. now destruct (String.eqb k x).
    + rewrite IH. destruct (String.eqb k' x) eqn:E'; [|reflexivity].
      apply String.eqb_eq in E' as ->. apply String.eqb_neq in E.
      assert (String.eqb k x = false) as -> by (apply String.eqb_neq; congruence).
      reflexivity.
Qed.

Lemma keys_set k v d :
  keys (dict_set k v d) = if py_in k (keys d) then keys d else keys d ++ [k].
Proof.
  unfold py_in, keys. induction d as [|[k' v'] d IH]; cbn; [reflexivity|].
  rewrite (String.eqb_sym k k').
  destruct (String.eqb k' k); cbn; [reflexivity|].
  rewrite IH. now destruct (existsb (String.eqb k) (map fst d)).
Qed.

Lemma NoDup_keys_set k v d : List.NoDup (keys d) -> List.NoDup (keys (dict_set k v d)).
Proof.
  intros Hd. rewrite keys_set. destruct (py_in k (keys d)) eqn:E; [exact Hd|].
  apply List.NoDup_app; [exact Hd | |].
  - constructor; [intros [] | constructor].
  - intros x Hx [<-|[]]. apply py_in_In in Hx. congruence.
Qed.

Lemma dict_del_present k d :
  In k (keys d) -> exists d', dict_del k d = Some d'.
Proof.
  induction d as [|[k' v'] d IH]; cbn; [intros []|].
  destruct (String.eqb k' k) eqn:E; [now eexists|].
  apply String.eqb_neq in E. intros [?|Hin]; [contradiction|].
  destruct (IH Hin) as [d' ->]. now eexists.
Qed.

Lemma dict_del_spec k d d' :
  List.NoDup (keys d) -> dict_del k d = Some d' ->
  List.NoDup (keys d') /\
  (forall x, In x (keys d') <-> In x (keys d) /\ x <> k) /\
  (forall x, dict_get x d' = if String.eqb k x then None else dict_get x d) /\
  S (length d') = length d.
Proof.
  revert d'. induction d as [|[k' v'] d IH]; cbn; [discriminate|].
  intros d' Hd Hdel. inversion Hd as [|? ? Hnotin Hd0]; subst.
  destruct (String.eqb k' k) eqn:E.
  - apply String.eqb_eq in E as ->. injection Hdel as <-.
    split; [exact Hd0|]. split; [|split; [|reflexivity]].
    + intros x. split.
      * intros Hx. split; [now right|]. intros ->. contradiction.
      * intros [[->|Hx] Hne]; [contradiction | exact Hx].
    + intros x. destruct (String.eqb k x) eqn:E; [|reflexivity].
      apply String.eqb_eq in E as <-. now apply dict_get_absent.
  - destruct (dict_del k d) as [d0|] eqn:Hd0'; [|discriminate].
    injection Hdel as <-.
    destruct (IH d0 Hd0 eq_refl) as (Hnd & Hkeys & Hget & Hlen).
    apply String.eqb_neq in E. cbn.
    split; [|split; [|split]].
    + constructor; [|exact Hnd]. intros Hin. apply Hkeys in Hin. tauto.
    + intros x. split.
      * intros [->|Hx]; [split; [now left | exact E]|].
        apply Hkeys in Hx. tauto.
      * intros [[->|Hx] Hne]; [now left | right; apply Hkeys; tauto].
    + intros x. rewrite Hget.
      destruct (String.eqb k' x) eqn:E'; [|reflexivity].
      apply String.eqb_eq in E' as ->.
      assert (String.eqb k x = false) as ->
        by (apply String.eqb_neq; congruence).
      reflexivity.
    + now rewrite Hlen.
Qed.

Lemma length_dict_set k v d : (length (dict_set k v d) <= S (length d))%nat.
Proof.
  induction d as [|[k' v'] d IH]; cbn; [lia|].
  destruct (String.eqb k' k); cbn; lia.
Qed.

End dictionaries.

Lemma replace_hyphens_clean (k : string) :
  has_hyphen (replace_hyphens k) = false.
Proof.
  induction k as [|c k IH]; cbn; [reflexivity|]. rewrite IH, orb_false_r.
  destruct (Ascii.eqb c "-") eqn:E; [reflexivity | exact E].
Qed.

Lemma replace_hyphens_id (k : string) :
  has_hyphen k = false -> replace_hyphens k = k.
Proof.
  induction k as [|c k IH]; cbn; [reflexivity|].
  intros [-> Hk]%orb_false_iff. now rewrite IH.
Qed.

Lemma renamed_to_spec (name : string) (ks : list string) (k : string) :
  renamed_to name ks = Some k ->
  In k ks /\ has_hyphen k = true /\ replace_hyphens k = name.
Proof.
  induction ks as [|k0 ks IH]; cbn; [discriminate|].
  destruct (renamed_to name ks) as [k'|].
  - intros [= ->]. destruct (IH eq_refl) as (Hin & Hh & Hr).
    repeat split; [now right | assumption..].
  - destruct (has_hyphen k0 && String.eqb (replace_hyphens k0) name) eqn:E;
      [|discriminate].
    intros [= <-]. apply andb_true_iff in E as [Hh Hr].
    apply String.eqb_eq in Hr. repeat split; [now left | assumption..].
Qed.

Lemma renamed_to_hyphen (name : string) (ks : list string) :
  has_hyphen name = true -> renamed_to name ks = None.
Proof.
  intros Hname. destruct (renamed_to name ks) as [k|] eqn:E; [|reflexivity].
  apply renamed_to_spec in E as (_ & _ & <-).
  now rewrite replace_hyphens_clean in Hname.
Qed.

(** The loop, from any point on: with the keys still to visit distinct and
    those with a hyphen still in the dictionary, it ends without a
    [KeyError], keeps the keys distinct and never makes the dictionary
    longer; and it says where each value of the result comes from. *)
Lemma normalize_loop_spec {V : Type} (ks : list string) (d : dict V) :
  List.NoDup (keys d) -> List.NoDup ks ->
  (forall k, In k ks -> has_hyphen k = true -> In k (keys d)) ->
  exists d',
    normalize_loop ks d = Some d' /\
    List.NoDup (keys d') /\
    (length d' <= length d)%nat /\
    forall x,
      dict_get x d' =
      match renamed_to x ks with
      | Some k => dict_get k d
      | None => if has_hyphen x && py_in x ks then None else dict_get x d
      end.
Proof.
  revert d. induction ks as [|k ks IH]; intros d Hd Hks Hpresent.
  - exists d. cbn. repeat split; [assumption | lia|].
    intros x. now rewrite andb_false_r.
  - inversion Hks as [|? ? Hk Hks']; subst. cbn [normalize_loop].
    destruct (has_hyphen k) eqn:Hh.
    + destruct (proj1 (dict_get_keys k d)
                  (Hpresent k (or_introl eq_refl) Hh)) as [v Hv].
      rewrite Hv.
      pose proof (NoDup_keys_set (replace_hyphens k) v d Hd) as Hd1.
      assert (Hin1 : In k (keys (dict_set (replace_hyphens k) v d))).
      { rewrite keys_set. destruct (py_in _ _).
        - apply dict_get_keys. now exists v.
        - apply in_app_iff. left. apply dict_get_keys. now exists v. }
      destruct (dict_del_present k _ Hin1) as [d2 Hdel]. rewrite Hdel.
      destruct (dict_del_spec k _ d2 Hd1 Hdel) as (Hd2 & Hkeys2 & Hget2 & Hlen2).
      assert (Hne : replace_hyphens k <> k).
      { intros E. pose proof (replace_hyphens_clean k) as Hc.
        rewrite E in Hc. congruence. }
      destruct (IH d2 Hd2 Hks') as (d' & Hloop & Hd' & Hlen & Hget).
      { intros k' Hk' Hh'. apply Hkeys2. split.
        - rewrite keys_set. specialize (Hpresent k' (or_intror Hk') Hh').
          destruct (py_in _ _); [exact Hpresent|].
          apply in_app_iff. now left.
        - intros ->. contradiction. }
      exists d'. split; [exact Hloop|]. split; [exact Hd'|]. split.
      { pose proof (length_dict_set (replace_hyphens k) v d). lia. }
      intros x. rewrite Hget. cbn [renamed_to py_in existsb]. rewrite Hh.
      cbn [andb].
      destruct (renamed_to x ks) as [k'|] eqn:Hren.
      * apply renamed_to_spec in Hren as (Hk' & Hh' & Hr').
        rewrite Hget2, dict_get_set.
        assert (String.eqb k k' = false) as ->
          by (apply String.eqb_neq; intros ->; contradiction).
        assert (String.eqb (replace_hyphens k) k' = false) as ->.
        { apply String.eqb_neq. intros E.
          pose proof (replace_hyphens_clean k) as Hc. rewrite E in Hc.
          congruence. }
        reflexivity.
      * rewrite Hget2, dict_get_set.
        destruct (String.eqb (replace_hyphens k) x) eqn:Er.
        -- apply String.eqb_eq in Er as <-.
           rewrite replace_hyphens_clean. cbn [andb].
           assert (String.eqb k (replace_hyphens k) = false) as ->
             by (apply String.eqb_neq; congruence).
           now rewrite Hv.
        -- rewrite (String.eqb_sym x k).
           destruct (String.eqb k x) eqn:Ek.
           ++ apply String.eqb_eq in Ek as <-. rewrite Hh. cbn.
              now destruct (py_in k ks).
           ++ cbn [orb]. reflexivity.
    + destruct (IH d Hd Hks') as (d' & Hloop & Hd' & Hlen & Hget).
      { intros k' Hk' Hh'. apply Hpresent; [now right | exact Hh']. }
      exists d'. split; [exact Hloop|]. split; [exact Hd'|].
      split; [exact Hlen|].
      intros x. rewrite Hget. cbn [renamed_to py_in existsb]. rewrite Hh.
      cbn [andb].
      destruct (renamed_to x ks); [reflexivity|].
      rewrite (String.eqb_sym x k).
      destruct (String.eqb k x) eqn:Ek; [|reflexivity].
      apply String.eqb_eq in Ek as <-. now rewrite Hh.
Qed.

Lemma renamed_to_none (name : string) (ks : list string) (k : string) :
  renamed_to name ks = None -> In k ks -> has_hyphen k = true ->
  replace_hyphens k <> name.
Proof.
  induction ks as [|k0 ks IH]; cbn; [intros _ []|].
  destruct (renamed_to name ks) as [k'|]; [discriminate|].
  destruct (has_hyphen k0 && String.eqb (replace_hyphens k0) name) eqn:E;
    [discriminate|].
  intros _ [<-|Hin] Hh; [|now apply IH].
  rewrite Hh in E. cbn in E. now apply String.eqb_neq.
Qed.

Lemma NoDup_map_injective {A B : Type} (f : A -> B) (l : list A) (x y : A) :
  List.NoDup (map f l) -> In x l -> In y l -> f x = f y -> x = y.
Proof.
  induction l as [|z l IH]; cbn; [intros _ []|].
  intros Hnd. inversion Hnd as [|? ? Hnotin Hnd']; subst.
  intros [<-|Hx] [<-|Hy] Hf; try reflexivity.
  - exfalso. apply Hnotin. rewrite Hf. now apply in_map.
  - exfalso. apply Hnotin. rewrite <- Hf. now apply in_map.
  - now apply IH.
Qed.

Lemma normalize_kwargs_spec {V : Type} (d : dict V) :
  List.NoDup (keys d) ->
  exists d',
    normalize_kwargs d = Some d' /\
    List.NoDup (keys d') /\
    (length d' <= length d)%nat /\
    forall x,
      dict_get x d' =
      match renamed_to x (keys d) with
      | Some k => dict_get k d
      | None => if has_hyphen x then None else dict_get x d
      end.
Proof.
  intros Hd.
  destruct (normalize_loop_spec (keys d) d Hd Hd) as (d' & Hrun & Hd' & Hlen & Hget);
    [tauto|].
  exists d'. repeat split; try assumption.
  intros x. rewrite Hget. destruct (renamed_to x (keys d)); [reflexivity|].
  destruct (has_hyphen x); [|reflexivity]. cbn [andb].
  destruct (py_in x (keys d)) eqn:E; [reflexivity|].
  rewrite dict_get_absent; [reflexivity|]. rewrite <- py_in_In. congruence.
Qed.

Lemma normalize_loop_clean {V : Type} (ks : list string) (d : dict V) :
  (forall k, In k ks -> has_hyphen k = false) -> normalize_loop ks d = Some d.
Proof.
  induction ks as [|k ks IH]; cbn [normalize_loop]; [reflexivity|].
  intros Hclean. rewrite (Hclean k (or_introl eq_refl)).
  apply IH. intros k' Hk'. apply Hclean. now right.
Qed.

Lemma normalize_kwargs_keys_clean {V : Type} (d d' : dict V) :
  List.NoDup (keys d) -> normalize_kwargs d = Some d' ->
  forall k, In k (keys d') -> has_hyphen k = false.
Proof.
  intros Hd Hrun k Hk.
  destruct (normalize_kwargs_spec d Hd) as (d0 & Hrun0 & _ & _ & Hget).
  rewrite Hrun in Hrun0. injection Hrun0 as <-.
  apply dict_get_keys in Hk as [v Hv]. rewrite Hget in Hv.
  destruct (has_hyphen k) eqn:Hh; [|reflexivity].
  now rewrite (renamed_to_hyphen k (keys d) Hh) in Hv.
Qed.

(** On any dictionary, [normalize_kwargs] ends without a [KeyError]; no key
    of the result has a hyphen, no key occurs twice, and the result has no
    more items than the argument. *)
Theorem normalize_kwargs_clean {V : Type} (d : dict V) :
  List.NoDup (keys d) ->
  exists d',
    normalize_kwargs d = Some d' /\
    (forall k, In k (keys d') -> has_hyphen k = false) /\
    List.NoDup (keys d') /\
    (length d' <= length d)%nat.
Proof.
  intros Hd.
  destruct (normalize_kwargs_spec d Hd) as (d' & Hrun & Hd' & Hlen & _).
  exists d'. repeat split; try assumption.
  now apply (normalize_kwargs_keys_clean d d' Hd Hrun).
Qed.

(** Where each value of the result comes from: under a name [x], the value
    of the last key with a hyphen that is renamed to [x], if there is one;
    otherwise the value that [x] had, if [x] has no hyphen; and nothing under
    a name with a hyphen. *)
Theorem normalize_kwargs_lookup {V : Type} (d : dict V) :
  List.NoDup (keys d) ->
  exists d',
    normalize_kwargs d = Some d' /\
    forall x,
      dict_get x d' =
      match renamed_to x (keys d) with
      | Some k => dict_get k d
      | None => if has_hyphen x then None else dict_get x d
      end.
Proof.
  intros Hd.
  destruct (normalize_kwargs_spec d Hd) as (d' & Hrun & _ & _ & Hget).
  now exists d'.
Qed.

(** When no two keys get the same name, nothing is lost: every value is
    found under the renamed key, and the result has as many items as the
    argument. *)
Theorem normalize_kwargs_renames {V : Type} (d : dict V) :
  List.NoDup (map replace_hyphens (keys d)) ->
  exists d',
    normalize_kwargs d = Some d' /\
    (forall k v, dict_get k d = Some v ->
                 dict_get (replace_hyphens k) d' = Some v) /\
    length d' = length d.
Proof.
  intros Hinj. pose proof (List.NoDup_map_inv _ _ Hinj) as Hd.
  destruct (normalize_kwargs_spec d Hd) as (d' & Hrun & Hd' & Hlen & Hget).
  assert (Hfound : forall k v, dict_get k d = Some v ->
                     dict_get (replace_hyphens k) d' = Some v).
  { intros k v Hv. rewrite Hget.
    assert (Hk : In k (keys d)) by (apply dict_get_keys; now exists v).
    destruct (renamed_to (replace_hyphens k) (keys d)) as [k'|] eqn:Hren.
    - apply renamed_to_spec in Hren as (Hk' & _ & Hr).
      now rewrite (NoDup_map_injective replace_hyphens (keys d) k' k
                     Hinj Hk' Hk Hr).
    - rewrite replace_hyphens_clean.
      destruct (has_hyphen k) eqn:Hh.
      + now destruct (renamed_to_none _ _ k Hren Hk Hh).
      + now rewrite (replace_hyphens_id k Hh). }
  exists d'. repeat split; try assumption.
  apply Nat.le_antisymm; [exact Hlen|].
  assert (Hincl : incl (map replace_hyphens (keys d)) (keys d')).
  { intros x (k & <- & Hk)%in_map_iff.
    apply dict_get_keys in Hk as [v Hv]. apply dict_get_keys.
    exists v. now apply Hfound. }
  pose proof (List.NoDup_incl_length Hinj Hincl) as Hle.
  unfold keys in Hle. now rewrite !length_map in Hle.
Qed.

(** A key with a hyphen overrides the same name spelt with underscores: if
    it is the only key with a hyphen that is renamed to that name, the result
    holds its value there, whatever the argument held under that name. *)
Theorem normalize_kwargs_hyphen_wins {V : Type} (d : dict V) (k : string)
    (v : V) :
  List.NoDup (keys d) ->
  dict_get k d = Some v ->
  has_hyphen k = true ->
  (forall k', In k' (keys d) -> has_hyphen k' = true ->
              replace_hyphens k' = replace_hyphens k -> k' = k) ->
  exists d',
    normalize_kwargs d = Some d' /\
    dict_get (replace_hyphens k) d' = Some v /\
    dict_get k d' = None.
Proof.
  intros Hd Hv Hh Honly.
  destruct (normalize_kwargs_spec d Hd) as (d' & Hrun & _ & _ & Hget).
  exists d'. split; [exact Hrun|].
  assert (Hk : In k (keys d)) by (apply dict_get_keys; now exists v).
  split.
  - rewrite Hget.
    destruct (renamed_to (replace_hyphens k) (keys d)) as [k'|] eqn:Hren.
    + apply renamed_to_spec in Hren as (Hk' & Hh' & Hr).
      now rewrite (Honly k' Hk' Hh' Hr).
    + now destruct (renamed_to_none _ _ k Hren Hk Hh).
  - rewrite Hget, (renamed_to_hyphen k (keys d) Hh). now rewrite Hh.
Qed.

(** A dictionary none of whose keys has a hyphen comes back as it is. *)
Theorem normalize_kwargs_unchanged {V : Type} (d : dict V) :
  (forall k, In k (keys d) -> has_hyphen k = false) ->
  normalize_kwargs d = Some d.
Proof. apply normalize_loop_clean. Qed.

(** [normalize_kwargs] is idempotent: applied to its own result, it returns
    that result. *)
Theorem normalize_kwargs_idempotent {V : Type} (d d' : dict V) :
  List.NoDup (keys d) ->
  normalize_kwargs d = Some d' ->
  normalize_kwargs d' = Some d'.
Proof.
  intros Hd Hrun. apply normalize_loop_clean.
  now apply (normalize_kwargs_keys_clean d d' Hd Hrun).
Qed.

(** *** On the keyword arguments of a build hook *)

Ltac distinct_keys :=
  repeat (constructor; [cbn; intuition discriminate|]); constructor.

Lemma hook_kwargs_distinct : List.NoDup (keys hook_kwargs).
Proof. distinct_keys. Qed.

Lemma normalize_kwargs_clean_witness :
  exists d',
    normalize_kwargs hook_kwargs = Some d' /\
    (forall k, In k (keys d') -> has_hyphen k = false) /\
    List.NoDup (keys d') /\
    (length d' <= length hook_kwargs)%nat.
Proof. apply (normalize_kwargs_clean hook_kwargs hook_kwargs_distinct). Defined.

Lemma normalize_kwargs_lookup_witness :
  exists d',
    normalize_kwargs hook_kwargs = Some d' /\
    dict_get "build_dir" d' = Some "lib".
Proof.
  destruct (normalize_kwargs_lookup hook_kwargs hook_kwargs_distinct)
    as (d' & Hrun & Hget).
  exists d'. split; [exact Hrun|]. now rewrite Hget.
Defined.

Lemma normalize_kwargs_renames_witness :
  exists d',
    normalize_kwargs [("build-dir", "lib"); ("source_dir", "src")] = Some d' /\
    dict_get "build_dir" d' = Some "lib" /\
    length d' = 2%nat.
Proof.
  destruct (normalize_kwargs_renames [("build-dir", "lib"); ("source_dir", "src")])
    as (d' & Hrun & Hget & Hlen); [distinct_keys|].
  exists d'. split; [exact Hrun|]. split; [|exact Hlen].
  now apply (Hget "build-dir" "lib").
Defined.

Lemma normalize_kwargs_hyphen_wins_witness :
  exists d',
    normalize_kwargs hook_kwargs = Some d' /\
    dict_get "build_dir" d' = Some "lib" /\
    dict_get "build-dir" d' = None.
Proof.
  apply (normalize_kwargs_hyphen_wins hook_kwargs "build-dir" "lib"
           hook_kwargs_distinct eq_refl eq_refl).
  intros k' [<-|[<-|[<-|[<-|[]]]]]; cbn; congruence.
Defined.

Lemma normalize_kwargs_unchanged_witness :
  normalize_kwargs [("build_dir", "lib"); ("source_dir", "src")]
  = Some [("build_dir", "lib"); ("source_dir", "src")].
Proof.
  apply normalize_kwargs_unchanged.
  intros k [<-|[<-|[]]]; reflexivity.
Defined.

Lemma normalize_kwargs_idempotent_witness :
  normalize_kwargs
    [("source_dir", "src"); ("build_dir", "lib");
     ("editable_build_cmd", "watch")]
  = Some [("source_dir", "src"); ("build_dir", "lib");
          ("editable_build_cmd", "watch")].
Proof.
  apply (normalize_kwargs_idempotent hook_kwargs _ hook_kwargs_distinct).
  reflexivity.
Defined.

(** * [get_build_func] *)

Lemma rsplit_last_none (sep : ascii) (s : string) :
  has_char sep s = false -> rsplit_last sep s = None.
Proof.
  induction s as [|c s IH]; cbn; [reflexivity|].
  intros [Hc Hs]%orb_false_iff. now rewrite (IH Hs), Hc.
Qed.

Lemma rsplit_last_app (sep : ascii) (before after : string) :
  has_char sep after = false ->
  rsplit_last sep (before +:+ String sep after) = Some (before, after).
Proof.
  intros Hafter.
  induction before as [|c before IH]; simpl.
  - now rewrite (rsplit_last_none sep after Hafter), Ascii.eqb_refl.
  - now rewrite IH.
Qed.

(** The name of a build function is split at its last dot: for a module name
    and an attribute name without a dot, [get_build_func] imports exactly
    that module, with the working directory put first on [sys.path], and
    looks up exactly that attribute in it; an exception of the import comes
    out as it is. *)
Theorem get_build_func_splits {Mod Fn Err : Type} (imp : Importer Mod Fn Err)
    (mod_name func_name : string) (sys_path : list string) :
  has_char "." func_name = false ->
  get_build_func imp (mod_name +:+ "." +:+ func_name) sys_path =
  match import_module imp mod_name (getcwd imp :: sys_path) with
  | (_, []) => (inl (pop_from_empty imp), [])
  | (inl e, _ :: rest) => (inl e, rest)
  | (inr m, _ :: rest) => (getattr imp m func_name, rest)
  end.
Proof.
  intros Hfunc. unfold get_build_func, rpartition.
  change (mod_name +:+ "." +:+ func_name)
    with (mod_name +:+ String "." func_name).
  rewrite (rsplit_last_app "." mod_name func_name Hfunc).
  destruct (import_module imp mod_name (getcwd imp :: sys_path))
    as [[e|m] [|entry rest]]; reflexivity.
Qed.

Lemma get_build_func_splits_witness :
  get_build_func any_module "hatch_jupyter_builder.utils.npm_builder"
    ["/usr/lib/python3"]
  = (inr ("hatch_jupyter_builder.utils", "npm_builder"),
     ["/usr/lib/python3"]).
Proof.
  apply (get_build_func_splits any_module "hatch_jupyter_builder.utils"
           "npm_builder" ["/usr/lib/python3"]).
  reflexivity.
Defined.

(** A name without a dot has no module part: [get_build_func] asks the
    import system for the module with the empty name, and for the whole name
    as attribute. *)
Theorem get_build_func_no_dot {Mod Fn Err : Type} (imp : Importer Mod Fn Err)
    (name : string) (sys_path : list string) :
  has_char "." name = false ->
  get_build_func imp name sys_path =
  match import_module imp EmptyString (getcwd imp :: sys_path) with
  | (_, []) => (inl (pop_from_empty imp), [])
  | (inl e, _ :: rest) => (inl e, rest)
  | (inr m, _ :: rest) => (getattr imp m name, rest)
  end.
Proof.
  intros Hname. unfold get_build_func, rpartition.
  rewrite (rsplit_last_none "." name Hname).
  destruct (import_module imp EmptyString (getcwd imp :: sys_path))
    as [[e|m] [|entry rest]]; reflexivity.
Qed.

Lemma get_build_func_no_dot_witness :
  get_build_func any_module "npm_builder" ["/usr/lib/python3"]
  = (inl "Empty module name", ["/usr/lib/python3"]).
Proof.
  apply (get_build_func_no_dot any_module "npm_builder" ["/usr/lib/python3"]).
  reflexivity.
Defined.



(** * A tool that does not resolve *)

Lemma npm_builder_tool_missing_witness :
  fst (npm_builder (posix_host 0) (wheel_args None None false)
         (world_of checkout_without_npm ["hatch"] no_env))
  = Raise (ValueError (not_found_message "npm")).
Proof.
  destruct (npm_builder_tool_missing (posix_host 0)
              (wheel_args None None false)
              (world_of checkout_without_npm ["hatch"] no_env)
              (world_of checkout_without_npm ["hatch"] no_env)
              (ValueError (not_found_message "npm")))
    as [-> _]; reflexivity.
Defined.
